(** * Monitor Color Inverter: a shallow embedding of [monitor_inverter.py]

    The development follows the classes of the program:
    - [Frames]: the numpy arrays the capture loop works on (uint8 planes,
      slices, [cv2.bitwise_and]);
    - [ColorInverter]: [invert_colors], [mask_video_regions], the
      capture loop and the overlay life cycle;
    - [WindowsKeyDetector]: the callback list and the polling loop;
    - [InverterGUI]: [start_detection], [stop_detection],
      [toggle_inversion].

    Coordinates are [Z] (window rectangles can lie left of or above a
    monitor), list positions are [nat], channel values are [Z] in
    [0, 256) with the uint8 wrap-around written out. *)

From Stdlib Require Import ZArith Lia Bool.
From stdpp Require Import base tactics option list gmap strings.

Local Open Scope Z_scope.

(** A rectangle as the program has it: the 4-tuple
    [(left, top, right, bottom)] in screen coordinates. *)
Definition rect : Type := Z * Z * Z * Z.

(** The outcome of a call that can raise. *)
Inductive result (A : Type) : Type :=
| Ok (a : A)
| Raise (msg : string).
Arguments Ok {A} a.
Arguments Raise {A} msg.

(** Handles of windows and threads. *)
Definition handle : Type := nat.

(** The windowing system and the threads, as far as the program changes
    them. *)
Record desktop : Type := Desktop {
  overlays : list handle;          (* live Toplevel overlay windows *)
  capture_threads : list handle;   (* capture threads started *)
  detection_threads : list handle; (* key detection threads started *)
  next_handle : handle
}.

(* ===================================================================== *)
(** * Frames: H x W x 3 arrays of uint8                                   *)
(* ===================================================================== *)

Module Frames.

(** One pixel of an RGB frame (the last axis of the array, length 3). *)
Record pixel : Type := RGB { red : Z; green : Z; blue : Z }.

(** A plane is a 2-d array (rows of values); a frame is a 2-d array of
    pixels. *)
Abbreviation plane := (list (list Z)).
Abbreviation frame := (list (list pixel)).

Definition uint8 (v : Z) : Z := v mod 256.

Definition is_uint8 (v : Z) : Prop := 0 <= v < 256.

Definition pixel_uint8 (p : pixel) : Prop :=
  is_uint8 (red p) /\ is_uint8 (green p) /\ is_uint8 (blue p).

(** [image[..., i]] for one pixel. *)
Definition get_channel (i : nat) (p : pixel) : Z :=
  match i with
  | O => red p
  | S O => green p
  | S (S O) => blue p
  | _ => 0
  end.

Definition set_channel (i : nat) (v : Z) (p : pixel) : pixel :=
  match i with
  | O => RGB v (green p) (blue p)
  | S O => RGB (red p) v (blue p)
  | S (S O) => RGB (red p) (green p) v
  | _ => p
  end.

(** [image.shape[:2]]: number of rows, then number of columns. *)
Definition height {A} (a : list (list A)) : nat := length a.
Definition width {A} (a : list (list A)) : nat :=
  match a with
  | [] => O
  | row :: _ => length row
  end.

(** An array is rectangular: [h] rows of [w] entries each. *)
Definition has_shape {A} (h w : nat) (a : list (list A)) : Prop :=
  length a = h /\ Forall (fun row => length row = w) a.

Definition frame_uint8 (img : frame) : Prop :=
  Forall (Forall pixel_uint8) img.

(** [a[r, c]], when in range. *)
Definition at2 {A} (a : list (list A)) (r c : nat) : option A :=
  a !! r ≫= (fun row => row !! c).

(** [np.ones((h, w), dtype=np.uint8) * 255] *)
Definition ones_times_255 (h w : nat) : plane :=
  replicate h (replicate w (uint8 (1 * 255))).

(** Python's normalisation of one bound of a slice (step 1) over an axis
    of length [n]: negative bounds count from the end, and the result
    is clamped to [0, n]. *)
Definition slice_bound (n i : Z) : Z :=
  if i <? 0 then Z.max 0 (n + i) else Z.min i n.

(** Is position [k] selected by [start:stop] on an axis of length [n]? *)
Definition in_slice (n : nat) (start stop : Z) (k : nat) : bool :=
  (slice_bound (Z.of_nat n) start <=? Z.of_nat k)
  && (Z.of_nat k <? slice_bound (Z.of_nat n) stop).

(** [m[y0:y1, x0:x1] = v] *)
Definition assign_block (y0 y1 x0 x1 : Z) (v : Z) (m : plane) : plane :=
  imap (fun r row =>
          if in_slice (length m) y0 y1 r
          then imap (fun c old =>
                       if in_slice (length row) x0 x1 c then v else old) row
          else row) m.

(** [image[:, :, i]] *)
Definition channel_plane (i : nat) (img : frame) : plane :=
  (fun row : list pixel => get_channel i <$> row) <$> img.

(** [cv2.bitwise_and(a, b)] on two planes of the same shape. *)
Definition bitwise_and (a b : plane) : plane :=
  zip_with (zip_with Z.land) a b.

(** [image[:, :, i] = p] *)
Definition assign_channel (i : nat) (img : frame) (p : plane) : frame :=
  zip_with (zip_with (fun px v => set_channel i v px)) img p.

End Frames.

(* ===================================================================== *)
(** * ColorInverter: the per-frame transforms                             *)
(* ===================================================================== *)

Module ColorInverter.
Import Frames.

(** [255 - v] on one uint8 value. *)
Definition invert_value (v : Z) : Z := uint8 (255 - v).

Definition invert_pixel (p : pixel) : pixel :=
  RGB (invert_value (red p)) (invert_value (green p)) (invert_value (blue p)).

(** [invert_colors]: [return 255 - image]; a fresh array. *)
Definition invert_colors (image : frame) : frame :=
  (fun row : list pixel => invert_pixel <$> row) <$> image.

(** The body of the loop over [video_windows] in [mask_video_regions]:
    the rectangle is moved to monitor-relative coordinates, clamped, and
    the block is zeroed in the mask when it is not empty. *)
Definition clip_to_monitor (monitor_rect video_rect : rect) : rect :=
  let '(vx, vy, vright, vbottom) := video_rect in
  let '(mx, my, mright, mbottom) := monitor_rect in
  let rel_x := Z.max 0 (vx - mx) in
  let rel_y := Z.max 0 (vy - my) in
  let rel_right := Z.min (mright - mx) (vright - mx) in
  let rel_bottom := Z.min (mbottom - my) (vbottom - my) in
  (rel_x, rel_y, rel_right, rel_bottom).

Definition mask_one (monitor_rect : rect) (mask : plane) (video_rect : rect)
  : plane :=
  let '(rel_x, rel_y, rel_right, rel_bottom) :=
    clip_to_monitor monitor_rect video_rect in
  if (rel_x <? rel_right) && (rel_y <? rel_bottom)
  then assign_block rel_y rel_bottom rel_x rel_right 0 mask
  else mask.

Definition build_mask (monitor_rect : rect) (image : frame)
           (video_windows : list rect) : plane :=
  fold_left (mask_one monitor_rect) video_windows
            (ones_times_255 (height image) (width image)).

(** One round of [for i in range(3)]. *)
Definition apply_mask_channel (mask : plane) (image : frame) (i : nat)
  : frame :=
  assign_channel i image (bitwise_and (channel_plane i image) mask).

(** [mask_video_regions], as a function of the contents of the array. *)
Definition mask_video_regions (monitor_rect : rect) (image : frame)
           (video_windows : list rect) : frame :=
  match video_windows with
  | [] => image
  | _ =>
      let mask := build_mask monitor_rect image video_windows in
      fold_left (apply_mask_channel mask) (seq 0 3) image
  end.

(** The frame the capture cycle hands to the renderer (the lines between
    the capture and the display in [capture_and_invert]). *)
Definition process_frame (monitor_rect : rect) (video_windows : list rect)
           (img : frame) : frame :=
  let inverted := invert_colors img in
  match video_windows with
  | [] => inverted
  | _ => mask_video_regions monitor_rect inverted video_windows
  end.


(** ** The array as a shared object

    [mask_video_regions] receives a reference to an array and writes
    through it.  The store maps references to array contents. *)

Definition ref : Type := nat.

(** One round of the channel loop, writing through the reference. *)
Definition store_mask_channel (mask : plane) (a : ref)
           (h : gmap ref frame) (i : nat) : gmap ref frame :=
  match h !! a with
  | Some image => <[a := apply_mask_channel mask image i]> h
  | None => h
  end.

(** [mask_video_regions] on the store: the new store and the reference
    that is returned; [None] when the reference is dangling. *)
Definition mask_video_regions_ref (monitor_rect : rect)
           (h : gmap ref frame) (a : ref) (video_windows : list rect)
  : option (gmap ref frame * ref) :=
  match h !! a with
  | None => None
  | Some image =>
      match video_windows with
      | [] => Some (h, a)
      | _ =>
          let mask := build_mask monitor_rect image video_windows in
          Some (fold_left (store_mask_channel mask a) (seq 0 3) h, a)
      end
  end.

(** ** The capture loop *)

(** What one pass of the loop reads from the rest of the system: the two
    flags other threads write, and the outcome of each call that can
    raise. *)
Record cycle_env : Type := CycleEnv {
  env_running : bool;                      (* self.running *)
  env_inversion_active : bool;             (* self.inversion_active *)
  env_grab : result frame;                 (* sct.grab and conversion *)
  env_video_windows : result (list rect);  (* get_video_windows() *)
  env_overlay_ready : bool;   (* self.canvas and winfo_exists() *)
  env_display : result unit                (* PhotoImage / canvas calls *)
}.

Inductive event : Type :=
| Captured                      (* sct.grab(monitor) returned *)
| CanvasCleared                 (* canvas.delete("all") *)
| ImageShown (f : frame)        (* canvas.create_image(...) *)
| Slept                         (* time.sleep(1/30) *)
| ErrorPrinted (msg : string).  (* print(f"Error in capture loop: ...") *)

(** The body of the [try]: the events it performs and, when it raises,
    the exception. *)
Definition cycle_body (monitor_rect : rect) (e : cycle_env)
  : list event * option string :=
  if env_inversion_active e then
    match env_grab e with
    | Raise msg => ([], Some msg)
    | Ok img =>
        match env_video_windows e with
        | Raise msg => ([Captured], Some msg)
        | Ok video_windows =>
            let inverted := process_frame monitor_rect video_windows img in
            match env_display e with
            | Raise msg => ([Captured], Some msg)
            | Ok _ =>
                if env_overlay_ready e
                then ([Captured; CanvasCleared; ImageShown inverted], None)
                else ([Captured], None)
            end
        end
    end
  else
    if env_overlay_ready e then ([CanvasCleared], None) else ([], None).

Inductive loop_exit : Type :=
| RunningCleared   (* the [while self.running] test failed *)
| BrokeOnError     (* the [except] branch: print, then [break] *)
| ScriptExhausted. (* no more observations; the loop is still going *)

(** [capture_and_invert]: the loop over the observations of successive
    passes.  Returns the events, the number of passes whose body was
    entered, and how the loop ended. *)
Fixpoint capture_and_invert (monitor_rect : rect) (script : list cycle_env)
  : list event * nat * loop_exit :=
  match script with
  | [] => ([], O, ScriptExhausted)
  | e :: rest =>
      if env_running e then
        match cycle_body monitor_rect e with
        | (evs, Some msg) => (evs ++ [ErrorPrinted msg], 1%nat, BrokeOnError)
        | (evs, None) =>
            let '(tr, n, ex) := capture_and_invert monitor_rect rest in
            (evs ++ Slept :: tr, S n, ex)
        end
      else ([], O, RunningCleared)
  end.

(** ** The object and its life cycle *)

Record t : Type := Make {
  monitor_rect : rect;
  running : bool;
  overlay_window : option handle;
  canvas : option handle;
  inversion_active : bool;
  capture_thread : option handle
}.

(** [__init__] *)
Definition init (monitor_rect : rect) : t :=
  {| monitor_rect := monitor_rect;
     running := false;
     overlay_window := None;
     canvas := None;
     inversion_active := false;
     capture_thread := None |}.

(** [create_overlay_window]: a new Toplevel and its canvas. *)
Definition create_overlay_window (d : desktop) (self : t) : desktop * t :=
  let w := next_handle d in
  ({| overlays := overlays d ++ [w];
      capture_threads := capture_threads d;
      detection_threads := detection_threads d;
      next_handle := S w |},
   {| monitor_rect := monitor_rect self;
      running := running self;
      overlay_window := Some w;
      canvas := Some w;
      inversion_active := inversion_active self;
      capture_thread := capture_thread self |}).

Definition set_inversion_active (active : bool) (self : t) : t :=
  {| monitor_rect := monitor_rect self;
     running := running self;
     overlay_window := overlay_window self;
     canvas := canvas self;
     inversion_active := active;
     capture_thread := capture_thread self |}.

(** [start]: set the flag, create the overlay, start the thread. *)
Definition start (d : desktop) (self : t) : desktop * t :=
  let self1 :=
    {| monitor_rect := monitor_rect self;
       running := true;
       overlay_window := overlay_window self;
       canvas := canvas self;
       inversion_active := inversion_active self;
       capture_thread := capture_thread self |} in
  let '(d1, self2) := create_overlay_window d self1 in
  let th := next_handle d1 in
  ({| overlays := overlays d1;
      capture_threads := capture_threads d1 ++ [th];
      detection_threads := detection_threads d1;
      next_handle := S th |},
   {| monitor_rect := monitor_rect self2;
      running := running self2;
      overlay_window := overlay_window self2;
      canvas := canvas self2;
      inversion_active := inversion_active self2;
      capture_thread := Some th |}).

(** [stop]: clear the flag and destroy the overlay when there is one.
    The attribute [overlay_window] keeps its value. *)
Definition stop (d : desktop) (self : t) : desktop * t :=
  let self1 :=
    {| monitor_rect := monitor_rect self;
       running := false;
       overlay_window := overlay_window self;
       canvas := canvas self;
       inversion_active := inversion_active self;
       capture_thread := capture_thread self |} in
  match overlay_window self with
  | Some w =>
      ({| overlays := filter (fun x => x <> w) (overlays d);
          capture_threads := capture_threads d;
          detection_threads := detection_threads d;
          next_handle := next_handle d |}, self1)
  | None => (d, self1)
  end.

End ColorInverter.

(* ===================================================================== *)
(** * WindowsKeyDetector: the callback list and the polling loop          *)
(* ===================================================================== *)

Module WindowsKeyDetector.

(** The detector object.  [Cb] is the type of the registered callables;
    times are in milliseconds. *)
Record t (Cb : Type) : Type := Make {
  hold_duration : Z;
  key_pressed : bool;
  press_start_time : Z;
  running : bool;
  detection_thread : option handle;
  callbacks : list Cb
}.
Arguments Make {Cb}.
Arguments hold_duration {Cb}.
Arguments key_pressed {Cb}.
Arguments press_start_time {Cb}.
Arguments running {Cb}.
Arguments detection_thread {Cb}.
Arguments callbacks {Cb}.

(** [__init__(hold_duration=2.0)] *)
Definition init {Cb} (hold_duration : Z) : t Cb :=
  Make hold_duration false 0 false None [].

Definition default_hold_duration : Z := 2000.

Definition with_callbacks {Cb} (l : list Cb) (self : t Cb) : t Cb :=
  Make (hold_duration self) (key_pressed self) (press_start_time self)
       (running self) (detection_thread self) l.

Definition with_key {Cb} (pressed : bool) (since : Z) (self : t Cb) : t Cb :=
  Make (hold_duration self) pressed since
       (running self) (detection_thread self) (callbacks self).

(** [list.remove(x)]: drops the first item equal to [x]; [None] stands
    for the ValueError raised when there is none. *)
Fixpoint list_remove {A} `{EqDecision A} (x : A) (l : list A)
  : option (list A) :=
  match l with
  | [] => None
  | y :: l' =>
      if decide (y = x) then Some l' else cons y <$> list_remove x l'
  end.

(** [add_callback]: [self.callbacks.append(callback)] *)
Definition add_callback {Cb} (callback : Cb) (self : t Cb) : t Cb :=
  with_callbacks (callbacks self ++ [callback]) self.

(** [remove_callback]: remove under the guard [callback in self.callbacks]. *)
Definition remove_callback {Cb} `{EqDecision Cb} (callback : Cb)
           (self : t Cb) : result (t Cb) :=
  if bool_decide (callback ∈ callbacks self) then
    match list_remove callback (callbacks self) with
    | Some l => Ok (with_callbacks l self)
    | None => Raise "ValueError: list.remove(x): x not in list"
    end
  else Ok self.

(** What one pass of the loop reads: the [running] flag (written by
    [stop] from another thread), the key state, and the clock. *)
Record tick : Type := Tick {
  tick_running : bool;
  tick_pressed : result bool;   (* is_windows_key_pressed() *)
  tick_time : Z                 (* time.time() *)
}.

Inductive event (Cb : Type) : Type :=
| Called (cb : Cb)                (* callback() *)
| CallbackErrorPrinted (cb : Cb)  (* the inner [except] *)
| Slept (ms : Z)                  (* time.sleep *)
| ErrorPrinted (msg : string).    (* the outer [except] *)
Arguments Called {Cb}.
Arguments CallbackErrorPrinted {Cb}.
Arguments Slept {Cb}.
Arguments ErrorPrinted {Cb}.

(** [for callback in self.callbacks: try: callback() except: print(...)];
    [raises cb] tells whether calling [cb] raises. *)
Definition run_callbacks {Cb} (raises : Cb -> bool) (l : list Cb)
  : list (event Cb) :=
  flat_map (fun cb =>
              if raises cb then [Called cb; CallbackErrorPrinted cb]
              else [Called cb]) l.

(** The [if / elif / elif] of one pass. *)
Definition poll_step {Cb} (raises : Cb -> bool) (self : t Cb)
           (current_pressed : bool) (current_time : Z)
  : t Cb * list (event Cb) :=
  if current_pressed && negb (key_pressed self) then
    (with_key true current_time self, [])
  else if negb current_pressed && key_pressed self then
    (with_key false 0 self, [])
  else if current_pressed && key_pressed self then
    let hold_time := current_time - press_start_time self in
    if hold_duration self <=? hold_time then
      (with_key (key_pressed self) current_time self,
       run_callbacks raises (callbacks self))
    else (self, [])
  else (self, []).

(** [detection_loop] over the observations of successive passes. *)
Fixpoint detection_loop {Cb} (raises : Cb -> bool) (self : t Cb)
         (script : list tick) : t Cb * list (event Cb) :=
  match script with
  | [] => (self, [])
  | k :: rest =>
      if tick_running k then
        match tick_pressed k with
        | Ok current_pressed =>
            let '(self1, evs) :=
              poll_step raises self current_pressed (tick_time k) in
            let '(self2, tr) := detection_loop raises self1 rest in
            (self2, evs ++ Slept 10 :: tr)
        | Raise msg =>
            let '(self2, tr) := detection_loop raises self rest in
            (self2, ErrorPrinted msg :: Slept 100 :: tr)
        end
      else (self, [])
  end.

(** How many times [cb] was called in a trace. *)
Definition is_call {Cb} `{EqDecision Cb} (cb : Cb) (e : event Cb) : bool :=
  match e with
  | Called c => bool_decide (c = cb)
  | _ => false
  end.

Definition fire_count {Cb} `{EqDecision Cb} (cb : Cb)
           (tr : list (event Cb)) : nat :=
  length (List.filter (is_call cb) tr).

(** [start]: guarded by [if not self.running]. *)
Definition start {Cb} (d : desktop) (self : t Cb) : desktop * t Cb :=
  if running self then (d, self)
  else
    let th := next_handle d in
    ({| overlays := overlays d;
        capture_threads := capture_threads d;
        detection_threads := detection_threads d ++ [th];
        next_handle := S th |},
     Make (hold_duration self) (key_pressed self) (press_start_time self)
          true (Some th) (callbacks self)).

(** [stop]: clear the flag; the join changes no state. *)
Definition stop {Cb} (self : t Cb) : t Cb :=
  Make (hold_duration self) (key_pressed self) (press_start_time self)
       false (detection_thread self) (callbacks self).

(** ** Reading the key *)

Definition VK_LWIN : Z := 0x5B.  (* Left Windows key *)
Definition VK_RWIN : Z := 0x5C.  (* Right Windows key *)

(** [is_key_pressed]: [GetAsyncKeyState(vk_code) & 0x8000 != 0]; the
    Windows call is the argument [GetAsyncKeyState]. *)
Definition is_key_pressed (GetAsyncKeyState : Z -> Z) (vk_code : Z) : bool :=
  negb (Z.land (GetAsyncKeyState vk_code) 0x8000 =? 0).

(** [is_windows_key_pressed]: either Windows key. *)
Definition is_windows_key_pressed (GetAsyncKeyState : Z -> Z) : bool :=
  is_key_pressed GetAsyncKeyState VK_LWIN
  || is_key_pressed GetAsyncKeyState VK_RWIN.

(** ** Reading a trace *)

(** The callbacks called in a trace, in order. *)
Definition calls_of {Cb} (tr : list (event Cb)) : list Cb :=
  flat_map (fun e => match e with Called cb => [cb] | _ => [] end) tr.

(** The number of sleeps in a trace. *)
Definition sleeps_of {Cb} (tr : list (event Cb)) : nat :=
  length (List.filter (fun e => match e with Slept _ => true | _ => false end)
                      tr).

(** Polls that find the key down, at the given times, with the loop
    running. *)
Definition presses (times : list Z) : list tick :=
  (fun now => Tick true (Ok true) now) <$> times.

(** A poll that finds the key up. *)
Definition release (now : Z) : tick := Tick true (Ok false) now.

End WindowsKeyDetector.

(* ===================================================================== *)
(** * InverterGUI: the controller                                         *)
(* ===================================================================== *)

Module InverterGUI.

(** The only callable the program registers: the bound method
    [self.toggle_inversion]. *)
Inductive callback : Type := toggle_inversion_method.

#[global] Instance callback_eq_dec : EqDecision callback.
Proof. intros [] []. left. reflexivity. Defined.

(** An entry of [MonitorManager.monitors]. *)
Record monitor : Type := Monitor {
  mon_rect : rect;
  mon_name : string;
  mon_primary : bool
}.

Record t : Type := Make {
  monitors : list monitor;           (* monitor_manager.monitors *)
  combo_current : Z;                 (* monitor_combo.current() *)
  windows_key_detector : WindowsKeyDetector.t callback;
  inverter : option ColorInverter.t;
  inversion_enabled : bool;
  start_button_enabled : bool;
  stop_button_enabled : bool;
  status_label : string;
  error_boxes : list string          (* messagebox.showerror calls *)
}.

(** [__init__], for a given monitor list and selection. *)
Definition init (monitors : list monitor) (combo_current : Z) : t :=
  {| monitors := monitors;
     combo_current := combo_current;
     windows_key_detector :=
       WindowsKeyDetector.init WindowsKeyDetector.default_hold_duration;
     inverter := None;
     inversion_enabled := false;
     start_button_enabled := true;
     stop_button_enabled := false;
     status_label := "Ready";
     error_boxes := [] |}.

Definition show_error (msg : string) (self : t) : t :=
  {| monitors := monitors self;
     combo_current := combo_current self;
     windows_key_detector := windows_key_detector self;
     inverter := inverter self;
     inversion_enabled := inversion_enabled self;
     start_button_enabled := start_button_enabled self;
     stop_button_enabled := stop_button_enabled self;
     status_label := status_label self;
     error_boxes := error_boxes self ++ [msg] |}.

(** [l[i]] for a Python list: a negative index counts from the end;
    [None] stands for IndexError. *)
Definition py_index {A} (l : list A) (i : Z) : option A :=
  let n := Z.of_nat (length l) in
  if i <? 0 then
    (if 0 <=? n + i then l !! Z.to_nat (n + i) else None)
  else l !! Z.to_nat i.

(** [start_detection] *)
Definition start_detection (d : desktop) (self : t) : desktop * t :=
  let selected_index := combo_current self in
  if selected_index <? 0 then
    (d, show_error "Please select a monitor" self)
  else
    match py_index (monitors self) selected_index with
    | None =>
        (d, show_error
              "Failed to start detection: list index out of range" self)
    | Some selected_monitor =>
        let monitor_rect := mon_rect selected_monitor in
        let '(d1, inv) :=
          ColorInverter.start d (ColorInverter.init monitor_rect) in
        let det1 :=
          WindowsKeyDetector.add_callback toggle_inversion_method
            (windows_key_detector self) in
        let '(d2, det2) := WindowsKeyDetector.start d1 det1 in
        (d2,
         {| monitors := monitors self;
            combo_current := combo_current self;
            windows_key_detector := det2;
            inverter := Some inv;
            inversion_enabled := inversion_enabled self;
            start_button_enabled := false;
            stop_button_enabled := true;
            status_label := "Detection active - Hold Windows key to toggle";
            error_boxes := error_boxes self |})
    end.

(** [stop_detection] *)
Definition stop_detection (d : desktop) (self : t) : desktop * t :=
  let det := WindowsKeyDetector.stop (windows_key_detector self) in
  let d1 :=
    match inverter self with
    | Some inv => fst (ColorInverter.stop d inv)
    | None => d
    end in
  (d1,
   {| monitors := monitors self;
      combo_current := combo_current self;
      windows_key_detector := det;
      inverter := None;
      inversion_enabled := false;
      start_button_enabled := true;
      stop_button_enabled := false;
      status_label := "Ready";
      error_boxes := error_boxes self |}).

(** [toggle_inversion]: the new state and, when the lookup of the
    selected monitor raises, the exception (the flag is already flipped
    then, and the status text is not updated). *)
Definition toggle_inversion (self : t) : t * option string :=
  match inverter self with
  | None => (self, None)
  | Some inv =>
      let enabled := negb (inversion_enabled self) in
      let inv1 := ColorInverter.set_inversion_active enabled inv in
      let with_status (s : string) : t :=
        {| monitors := monitors self;
           combo_current := combo_current self;
           windows_key_detector := windows_key_detector self;
           inverter := Some inv1;
           inversion_enabled := enabled;
           start_button_enabled := start_button_enabled self;
           stop_button_enabled := stop_button_enabled self;
           status_label := s;
           error_boxes := error_boxes self |} in
      if enabled then
        match py_index (monitors self) (combo_current self) with
        | Some m =>
            (with_status
               (String.append "Inverting "
                  (String.append (mon_name m)
                     " - Hold Windows key to toggle")), None)
        | None =>
            (with_status (status_label self),
             Some "IndexError: list index out of range")
        end
      else
        (with_status "Detection active - Hold Windows key to toggle", None)
  end.

(** What a call event of the detection loop does to the controller: the
    registered callable is [toggle_inversion]; an exception it raises is
    caught by the loop. *)
Definition handle_event (self : t) (e : WindowsKeyDetector.event callback)
  : t :=
  match e with
  | WindowsKeyDetector.Called toggle_inversion_method =>
      fst (toggle_inversion self)
  | _ => self
  end.

Definition run_events (self : t)
           (tr : list (WindowsKeyDetector.event callback)) : t :=
  fold_left handle_event tr self.

End InverterGUI.

(* ===================================================================== *)
(** * Vocabulary of the statements                                        *)
(* ===================================================================== *)

Module Geometry.
Import Frames.

(** The screen point [(x, y)] lies in the rectangle (right and bottom
    edges excluded, as for a slice). *)
Definition in_rect (R : rect) (x y : Z) : Prop :=
  let '(l, t, r, b) := R in l <= x < r /\ t <= y < b.

(** The screen point shown by pixel (row [r], column [c]) of a frame of
    the monitor. *)
Definition screen_x (monitor_rect : rect) (c : nat) : Z :=
  let '(mx, _, _, _) := monitor_rect in mx + Z.of_nat c.
Definition screen_y (monitor_rect : rect) (r : nat) : Z :=
  let '(_, my, _, _) := monitor_rect in my + Z.of_nat r.

(** The rectangle lies inside the monitor and is not degenerate. *)
Definition inside_monitor (monitor_rect R : rect) : Prop :=
  let '(vx, vy, vright, vbottom) := R in
  let '(mx, my, mright, mbottom) := monitor_rect in
  mx <= vx /\ vx < vright /\ vright <= mright /\
  my <= vy /\ vy < vbottom /\ vbottom <= mbottom.

(** Pixel (row [r], column [c]) lies in a clipped, monitor-relative
    rectangle. *)
Definition in_clip (cl : rect) (r c : nat) : bool :=
  let '(rel_x, rel_y, rel_right, rel_bottom) := cl in
  (rel_x <=? Z.of_nat c) && (Z.of_nat c <? rel_right)
  && (rel_y <=? Z.of_nat r) && (Z.of_nat r <? rel_bottom).

(** Pixel (row [r], column [c]) lies in the clipped rectangle of one of
    the video windows. *)
Definition excluded (monitor_rect : rect) (video_windows : list rect)
           (r c : nat) : bool :=
  existsb (fun v => in_clip (ColorInverter.clip_to_monitor monitor_rect v) r c)
          video_windows.

(** A pixel and-ed with one mask value, channel by channel. *)
Definition and_pixel (p : pixel) (m : Z) : pixel :=
  RGB (Z.land (red p) m) (Z.land (green p) m) (Z.land (blue p) m).

Definition black : pixel := RGB 0 0 0.

(** The frame of the monitor: as many rows and columns as the monitor
    rectangle is high and wide. *)
Definition monitor_frame (monitor_rect : rect) (img : frame) : Prop :=
  let '(mx, my, mright, mbottom) := monitor_rect in
  exists h w, has_shape h w img
              /\ Z.of_nat w = mright - mx /\ Z.of_nat h = mbottom - my.

End Geometry.

(** Observations on the two loops. *)
Module Observations.

(** The parts of the result of [capture_and_invert]. *)
Definition trace_of {E X} (r : list E * nat * X) : list E := fst (fst r).
Definition passes_of {E X} (r : list E * nat * X) : nat := snd (fst r).
Definition exit_of {E X} (r : list E * nat * X) : X := snd r.

(** The events of a pass that does not capture: clearing the canvas and
    sleeping. *)
Definition idle_event (ev : ColorInverter.event) : Prop :=
  ev = ColorInverter.CanvasCleared \/ ev = ColorInverter.Slept.

(** The key is down at every poll: [n] polls, 10 ms apart, from time 0,
    with the loop running. *)
Definition held_down (n : nat) : list WindowsKeyDetector.tick :=
  (fun k => WindowsKeyDetector.Tick true (Ok true) (10 * Z.of_nat k))
    <$> seq 0 n.

(** The detector of the program with its one callback registered. *)
Definition armed_detector : WindowsKeyDetector.t InverterGUI.callback :=
  WindowsKeyDetector.add_callback InverterGUI.toggle_inversion_method
    (WindowsKeyDetector.init WindowsKeyDetector.default_hold_duration).

(** No callback raises. *)
Definition never_raises {Cb} (cb : Cb) : bool := false.

End Observations.

(* ===================================================================== *)
(** * VideoWindowDetector: which windows are excluded                     *)
(* ===================================================================== *)

Module VideoWindowDetector.

(** Strings are byte strings (a window text in UTF-8).  [str.lower()] is
    modelled on the letters A-Z; the class names and indicators searched
    for are plain ASCII, and no byte of another character is one. *)
Definition lower_ascii (c : Ascii.ascii) : Ascii.ascii :=
  let n := Ascii.nat_of_ascii c in
  if (65 <=? n)%nat && (n <=? 90)%nat then Ascii.ascii_of_nat (n + 32) else c.

Fixpoint lower (s : string) : string :=
  match s with
  | String.EmptyString => String.EmptyString
  | String.String c s' => String.String (lower_ascii c) (lower s')
  end.

(** [needle in hay] for two strings. *)
Fixpoint is_substring (needle hay : string) : bool :=
  String.prefix needle hay
  || match hay with
     | String.EmptyString => false
     | String.String _ hay' => is_substring needle hay'
     end.

Definition COMMON_VIDEO_CLASSES : list string :=
  [ "MediaPlayerClassicW"%string;
    "VLC DirectX video output"%string;
    "Chrome_WidgetWin_1"%string;
    "MozillaWindowClass"%string;
    "ApplicationFrameWindow"%string;
    "Windows.UI.Core.CoreWindow"%string ].

Definition video_indicators : list string :=
  [ "youtube"%string; "netflix"%string; "hulu"%string; "video"%string;
    "player"%string; "vlc"%string; "media"%string ].

(** A top-level window as the Windows calls report it. *)
Record window : Type := Window {
  win_visible : bool;            (* IsWindowVisible(hwnd) *)
  win_class : result string;     (* GetClassName(hwnd) *)
  win_text : result string;      (* GetWindowText(hwnd) *)
  win_rect : Z * Z * Z * Z       (* GetWindowRect(hwnd) *)
}.

(** [is_video_window]: any exception gives [False]. *)
Definition is_video_window (hwnd : window) : bool :=
  match win_class hwnd with
  | Raise _ => false
  | Ok class_name =>
      match win_text hwnd with
      | Raise _ => false
      | Ok window_text =>
          if existsb (fun video_class => is_substring video_class class_name)
                     COMMON_VIDEO_CLASSES
          then true
          else
            if existsb (fun indicator =>
                          is_substring indicator (lower window_text))
                       video_indicators
            then true
            else false
      end
  end.

(** The detector object; times in milliseconds. *)
Record t : Type := Make {
  video_windows : gset (Z * Z * Z * Z);
  last_update : Z;
  update_interval : Z
}.

(** [__init__] *)
Definition init : t :=
  {| video_windows := ∅; last_update := 0; update_interval := 1000 |}.

(** The callback given to [EnumWindows]. *)
Definition enum_callback (acc : gset (Z * Z * Z * Z)) (hwnd : window)
  : gset (Z * Z * Z * Z) :=
  if win_visible hwnd && is_video_window hwnd
  then {[ win_rect hwnd ]} ∪ acc
  else acc.

(** [get_video_windows], at time [current_time], with [windows] the
    top-level windows [EnumWindows] goes through. *)
Definition get_video_windows (current_time : Z) (windows : list window)
           (self : t) : t * gset (Z * Z * Z * Z) :=
  if current_time - last_update self <? update_interval self then
    (self, video_windows self)
  else
    let found := fold_left enum_callback windows ∅ in
    ({| video_windows := found;
        last_update := current_time;
        update_interval := update_interval self |}, found).

End VideoWindowDetector.

(** Well-formed desktops: handles in use are below the next handle, and no
    overlay is listed twice. *)
Module Handles.


(** The events of the capture loop that draw on the canvas. *)
Definition draws (ev : ColorInverter.event) : bool :=
  match ev with
  | ColorInverter.CanvasCleared | ColorInverter.ImageShown _ => true
  | _ => false
  end.

Definition is_error (ev : ColorInverter.event) : bool :=
  match ev with
  | ColorInverter.ErrorPrinted _ => true
  | _ => false
  end.

End Handles.

(* ===================================================================== *)
(** * Facts about arrays                                                  *)
(* ===================================================================== *)

Section ArrayFacts.
Import Frames Geometry.

Lemma land_255 v : is_uint8 v -> Z.land v 255 = v.
Proof.
  intros Hv. change 255 with (Z.ones 8).
  rewrite Z.land_ones by lia. apply Z.mod_small. exact Hv.
Qed.

Lemma and_pixel_255 p : pixel_uint8 p -> and_pixel p 255 = p.
Proof.
  destruct p as [r g b]. intros (Hr & Hg & Hb). cbn in *.
  unfold and_pixel. cbn. by rewrite !land_255.
Qed.

Lemma and_pixel_0 p : and_pixel p 0 = black.
Proof. unfold and_pixel, black. by rewrite !Z.land_0_r. Qed.

Lemma and_pixel_idem p m : and_pixel (and_pixel p m) m = and_pixel p m.
Proof.
  unfold and_pixel. cbn.
  by rewrite <- !Z.land_assoc, !Z.land_diag.
Qed.

(** Two-level lookups. *)
Lemma at2_zip_with {A B C} (f : A -> B -> C) (a : list (list A))
      (b : list (list B)) r c :
  at2 (zip_with (zip_with f) a b) r c
  = x ← at2 a r c; y ← at2 b r c; Some (f x y).
Proof.
  unfold at2. rewrite lookup_zip_with.
  destruct (a !! r) as [ra|]; cbn; [|done].
  destruct (b !! r) as [rb|]; cbn.
  - rewrite lookup_zip_with. destruct (ra !! c); cbn; done.
  - destruct (ra !! c); done.
Qed.

Lemma at2_Some_lt {A} (a : list (list A)) h w r c x :
  has_shape h w a -> at2 a r c = Some x -> (r < h)%nat /\ (c < w)%nat.
Proof.
  intros [Hh Hw] H. unfold at2 in H.
  destruct (a !! r) as [row|] eqn:Hr; cbn in H; [|done].
  split.
  - rewrite <- Hh. by eapply lookup_lt_Some.
  - rewrite Forall_lookup in Hw. rewrite <- (Hw _ _ Hr).
    by eapply lookup_lt_Some.
Qed.

Lemma has_shape_width {A} (a : list (list A)) h w :
  has_shape h w a -> a <> [] -> width a = w.
Proof.
  intros [_ Hw] Hne. destruct a as [|row a]; [done|].
  cbn. by inversion Hw.
Qed.

Lemma has_shape_height {A} (a : list (list A)) h w :
  has_shape h w a -> height a = h.
Proof. by intros [Hh _]. Qed.

Lemma ones_shape h w : has_shape h w (ones_times_255 h w).
Proof.
  split.
  - apply length_replicate.
  - apply Forall_replicate, length_replicate.
Qed.

Lemma at2_ones h w r c :
  (r < h)%nat -> (c < w)%nat -> at2 (ones_times_255 h w) r c = Some 255.
Proof.
  intros Hr Hc. unfold at2, ones_times_255.
  rewrite lookup_replicate_2 by done. cbn.
  by rewrite lookup_replicate_2.
Qed.

(** Slices whose bounds are not negative select what the bounds say. *)
Lemma in_slice_nonneg n start stop k :
  0 <= start -> 0 <= stop -> (k < n)%nat ->
  in_slice n start stop k
  = (start <=? Z.of_nat k) && (Z.of_nat k <? stop).
Proof.
  intros Hs Ht Hk. unfold in_slice, slice_bound.
  destruct (start <? 0) eqn:E1; [lia|].
  destruct (stop <? 0) eqn:E2; [lia|].
  destruct (start <=? Z.of_nat k) eqn:E3, (Z.of_nat k <? stop) eqn:E4;
    cbn; rewrite ?andb_true_iff, ?andb_false_iff; lia.
Qed.

Lemma assign_block_shape h w y0 y1 x0 x1 v (m : plane) :
  has_shape h w m -> has_shape h w (assign_block y0 y1 x0 x1 v m).
Proof.
  intros [Hh Hw]. split.
  - unfold assign_block. by rewrite length_imap.
  - apply Forall_lookup. intros i row Hrow.
    unfold assign_block in Hrow.
    apply list_lookup_imap_Some in Hrow as (row0 & Hrow0 & ->).
    rewrite Forall_lookup in Hw. specialize (Hw _ _ Hrow0).
    destruct (in_slice _ _ _ _); [by rewrite length_imap | done].
Qed.

Lemma at2_assign_block h w y0 y1 x0 x1 v (m : plane) r c old :
  has_shape h w m ->
  0 <= y0 -> 0 <= y1 -> 0 <= x0 -> 0 <= x1 ->
  at2 m r c = Some old ->
  at2 (assign_block y0 y1 x0 x1 v m) r c
  = Some (if in_clip (x0, y0, x1, y1) r c then v else old).
Proof.
  intros Hshape Hy0 Hy1 Hx0 Hx1 Hat.
  destruct (at2_Some_lt _ _ _ _ _ _ Hshape Hat) as [Hr Hc].
  destruct Hshape as [Hh Hw].
  unfold at2 in *. unfold assign_block. rewrite list_lookup_imap.
  destruct (m !! r) as [row|] eqn:Hrow; cbn in *; [|done].
  rewrite Forall_lookup in Hw. specialize (Hw _ _ Hrow).
  rewrite in_slice_nonneg by lia.
  destruct ((y0 <=? Z.of_nat r) && (Z.of_nat r <? y1)) eqn:Ey.
  - rewrite list_lookup_imap, Hat. cbn.
    rewrite in_slice_nonneg by lia.
    apply andb_true_iff in Ey as [-> ->].
    by rewrite !andb_true_r.
  - rewrite Hat. f_equal.
    replace ((x0 <=? Z.of_nat c) && (Z.of_nat c <? x1)
             && (y0 <=? Z.of_nat r) && (Z.of_nat r <? y1))
      with false; [done|].
    rewrite <- andb_assoc, Ey. by rewrite andb_false_r.
Qed.

Lemma mask_one_shape mon h w (m : plane) v :
  has_shape h w m -> has_shape h w (ColorInverter.mask_one mon m v).
Proof.
  intros H. unfold ColorInverter.mask_one.
  destruct (ColorInverter.clip_to_monitor mon v) as [[[x0 y0] x1] y1].
  destruct ((x0 <? x1) && (y0 <? y1)); [by apply assign_block_shape|done].
Qed.

Lemma clip_nonneg mon v x0 y0 x1 y1 :
  ColorInverter.clip_to_monitor mon v = (x0, y0, x1, y1) ->
  0 <= x0 /\ 0 <= y0.
Proof.
  destruct mon as [[[mx my] mr] mb], v as [[[vx vy] vr] vb].
  cbn. intros [= <- <- <- <-]. lia.
Qed.

Lemma at2_mask_one mon h w (m : plane) v r c old :
  has_shape h w m ->
  at2 m r c = Some old ->
  at2 (ColorInverter.mask_one mon m v) r c
  = Some (if in_clip (ColorInverter.clip_to_monitor mon v) r c
          then 0 else old).
Proof.
  intros Hshape Hat. unfold ColorInverter.mask_one.
  destruct (ColorInverter.clip_to_monitor mon v) as [[[x0 y0] x1] y1] eqn:E.
  destruct (clip_nonneg _ _ _ _ _ _ E) as [Hx0 Hy0].
  destruct ((x0 <? x1) && (y0 <? y1)) eqn:G.
  - apply andb_true_iff in G as [Gx Gy].
    apply (at2_assign_block h w); try done; lia.
  - rewrite Hat. f_equal. unfold in_clip.
    destruct (x0 <=? Z.of_nat c) eqn:A1, (Z.of_nat c <? x1) eqn:A2,
             (y0 <=? Z.of_nat r) eqn:A3, (Z.of_nat r <? y1) eqn:A4;
      cbn; try done.
    apply andb_false_iff in G. lia.
Qed.

Lemma at2_fold_mask mon ws :
  forall (m : plane) h w r c old,
    has_shape h w m ->
    at2 m r c = Some old ->
    at2 (fold_left (ColorInverter.mask_one mon) ws m) r c
    = Some (if excluded mon ws r c then 0 else old).
Proof.
  induction ws as [|v ws IH]; intros m h w r c old Hshape Hat; cbn.
  - done.
  - rewrite (IH _ h w r c _ (mask_one_shape mon h w m v Hshape)
               (at2_mask_one mon h w m v r c old Hshape Hat)).
    fold (excluded mon ws r c).
    destruct (in_clip _ r c); cbn; [|done].
    by destruct (excluded mon ws r c).
Qed.

Lemma build_mask_shape mon (img : frame) ws :
  has_shape (height img) (width img) (ColorInverter.build_mask mon img ws).
Proof.
  unfold ColorInverter.build_mask.
  generalize (ones_shape (height img) (width img)).
  generalize (ones_times_255 (height img) (width img)).
  induction ws as [|v ws IH]; intros m Hm; cbn; [done|].
  apply IH. by apply mask_one_shape.
Qed.

Lemma at2_build_mask mon (img : frame) ws r c :
  (r < height img)%nat -> (c < width img)%nat ->
  at2 (ColorInverter.build_mask mon img ws) r c
  = Some (if excluded mon ws r c then 0 else 255).
Proof.
  intros Hr Hc. unfold ColorInverter.build_mask.
  apply (at2_fold_mask mon ws _ (height img) (width img)).
  - apply ones_shape.
  - by apply at2_ones.
Qed.

(** Nested [zip_with]s. *)
Lemma zip_with_zip_fmap {A B C D E} (f : A -> C -> D) (g : B -> E -> C)
      (h : A -> B) (l : list A) (k : list E) :
  zip_with f l (zip_with g (h <$> l) k)
  = zip_with (fun x y => f x (g (h x) y)) l k.
Proof.
  revert k. induction l as [|x l IH]; intros [|y k]; cbn; try done.
  by rewrite IH.
Qed.

Lemma zip_with_twice {A B} (f g : A -> B -> A) (l : list A) (k : list B) :
  zip_with f (zip_with g l k) k = zip_with (fun x y => f (g x y) y) l k.
Proof.
  revert k. induction l as [|x l IH]; intros [|y k]; cbn; try done.
  by rewrite IH.
Qed.

Lemma zip2_ext {A B C} (f g : A -> B -> C) (a : list (list A))
      (b : list (list B)) :
  (forall x y, f x y = g x y) ->
  zip_with (zip_with f) a b = zip_with (zip_with g) a b.
Proof.
  intros Hfg. apply zip_with_ext; try done.
  intros row mrow. by apply zip_with_ext.
Qed.

Lemma zip2_twice {A B} (f g : A -> B -> A) (a : list (list A))
      (b : list (list B)) :
  zip_with (zip_with f) (zip_with (zip_with g) a b) b
  = zip_with (zip_with (fun x y => f (g x y) y)) a b.
Proof.
  rewrite zip_with_twice. apply zip_with_ext; try done.
  intros row mrow. apply zip_with_twice.
Qed.

Lemma apply_mask_channel_zip (mask : plane) (img : frame) i :
  ColorInverter.apply_mask_channel mask img i
  = zip_with (zip_with (fun px m =>
                          set_channel i (Z.land (get_channel i px) m) px))
             img mask.
Proof.
  unfold ColorInverter.apply_mask_channel, assign_channel, bitwise_and,
    channel_plane.
  rewrite zip_with_zip_fmap. apply zip_with_ext; try done.
  intros row mrow. apply zip_with_zip_fmap.
Qed.

(** The three rounds of the channel loop and the whole pixel with the
    mask value. *)
Lemma channel_loop_zip (mask : plane) (img : frame) :
  fold_left (ColorInverter.apply_mask_channel mask) (seq 0 3) img
  = zip_with (zip_with and_pixel) img mask.
Proof.
  cbn. rewrite !apply_mask_channel_zip, !zip2_twice.
  apply zip2_ext. intros [r g b] m. reflexivity.
Qed.

Lemma mask_video_regions_zip mon (img : frame) v ws :
  ColorInverter.mask_video_regions mon img (v :: ws)
  = zip_with (zip_with and_pixel) img
             (ColorInverter.build_mask mon img (v :: ws)).
Proof. unfold ColorInverter.mask_video_regions. apply channel_loop_zip. Qed.

Lemma at2_mask_video_regions mon (img : frame) v ws h w r c px :
  has_shape h w img ->
  at2 img r c = Some px ->
  at2 (ColorInverter.mask_video_regions mon img (v :: ws)) r c
  = Some (and_pixel px (if excluded mon (v :: ws) r c then 0 else 255)).
Proof.
  intros Hshape Hat.
  destruct (at2_Some_lt _ _ _ _ _ _ Hshape Hat) as [Hr Hc].
  assert (Hne : img <> []) by (intros ->; done).
  rewrite mask_video_regions_zip, at2_zip_with, Hat. cbn [mbind option_bind].
  rewrite at2_build_mask; [done| |].
  - by rewrite (has_shape_height _ _ _ Hshape).
  - by rewrite (has_shape_width _ _ _ Hshape Hne).
Qed.

(** The mask depends on the array only through its shape, and masking
    keeps the shape. *)
Lemma build_mask_same_shape mon (a b : frame) ws :
  height a = height b -> width a = width b ->
  ColorInverter.build_mask mon a ws = ColorInverter.build_mask mon b ws.
Proof. unfold ColorInverter.build_mask. by intros -> ->. Qed.

Lemma zip2_height {A B} (f : A -> B -> A) (a : list (list A))
      (b : list (list B)) :
  has_shape (height a) (width a) b ->
  height (zip_with (zip_with f) a b) = height a.
Proof.
  intros [Hh _]. unfold height in *. by apply length_zip_with_l_eq.
Qed.

Lemma zip2_width {A B} (f : A -> B -> A) (a : list (list A))
      (b : list (list B)) :
  has_shape (height a) (width a) b ->
  width (zip_with (zip_with f) a b) = width a.
Proof.
  intros [Hh Hw]. destruct a as [|row a]; [done|].
  destruct b as [|mrow b]; [done|]. cbn in *.
  inversion Hw; subst. by apply length_zip_with_l_eq.
Qed.

Lemma invert_colors_shape h w (img : frame) :
  has_shape h w img -> has_shape h w (ColorInverter.invert_colors img).
Proof.
  intros [Hh Hw]. unfold ColorInverter.invert_colors. split.
  - by rewrite length_fmap.
  - apply Forall_fmap. eapply Forall_impl; [exact Hw|].
    intros row Hrow. cbn. by rewrite length_fmap.
Qed.

Lemma at2_invert_colors (img : frame) r c :
  at2 (ColorInverter.invert_colors img) r c
  = ColorInverter.invert_pixel <$> at2 img r c.
Proof.
  unfold at2, ColorInverter.invert_colors. rewrite list_lookup_fmap.
  destruct (img !! r) as [row|]; cbn; [|done].
  apply list_lookup_fmap.
Qed.

Lemma invert_value_uint8 v : is_uint8 (ColorInverter.invert_value v).
Proof.
  unfold ColorInverter.invert_value, uint8, is_uint8.
  apply Z.mod_pos_bound. lia.
Qed.

Lemma invert_value_small v :
  is_uint8 v -> ColorInverter.invert_value v = 255 - v.
Proof.
  unfold ColorInverter.invert_value, uint8, is_uint8. intros Hv.
  apply Z.mod_small. lia.
Qed.

Lemma invert_pixel_uint8 p : pixel_uint8 (ColorInverter.invert_pixel p).
Proof. repeat split; apply invert_value_uint8. Qed.

Lemma at2_frame_uint8 (img : frame) r c px :
  frame_uint8 img -> at2 img r c = Some px -> pixel_uint8 px.
Proof.
  unfold frame_uint8, at2. intros Hall Hat.
  destruct (img !! r) as [row|] eqn:Hr; cbn in Hat; [|done].
  eapply Forall_lookup_1; [|exact Hat].
  eapply Forall_lookup_1; [exact Hall|exact Hr].
Qed.

(** A mask of 255 everywhere changes nothing in a uint8 frame. *)
Lemma and_ones_id h w (img : frame) :
  has_shape h w img -> frame_uint8 img ->
  zip_with (zip_with and_pixel) img (ones_times_255 h w) = img.
Proof.
  intros [Hh Hw] Hbytes. unfold ones_times_255.
  change (uint8 (1 * 255)) with 255.
  rewrite zip_with_replicate_r_eq by done.
  rewrite <- (list_fmap_id img) at 2.
  apply Forall_fmap_ext. apply Forall_lookup. intros i row Hrow.
  rewrite Forall_lookup in Hw. specialize (Hw _ _ Hrow).
  unfold flip, id. rewrite zip_with_replicate_r_eq by done. rewrite <- (list_fmap_id row) at 2.
  apply Forall_fmap_ext.
  eapply Forall_impl; [exact (Forall_lookup_1 _ _ _ _ Hbytes Hrow)|].
  intros px Hpx. by apply and_pixel_255.
Qed.

(** The clipped rectangle is the overlap of the window and the monitor. *)
Lemma in_clip_overlap mon v r c :
  in_clip (ColorInverter.clip_to_monitor mon v) r c = true
  <-> in_rect v (screen_x mon c) (screen_y mon r)
      /\ in_rect mon (screen_x mon c) (screen_y mon r).
Proof.
  destruct mon as [[[mx my] mr] mb], v as [[[vx vy] vr] vb].
  unfold in_clip, in_rect, screen_x, screen_y. cbn.
  rewrite !andb_true_iff, !Z.leb_le, !Z.ltb_lt. lia.
Qed.

Lemma mask_one_no_overlap mon (m : plane) v :
  (forall x y, ~ (in_rect v x y /\ in_rect mon x y)) ->
  ColorInverter.mask_one mon m v = m.
Proof.
  intros Hempty. unfold ColorInverter.mask_one.
  destruct (ColorInverter.clip_to_monitor mon v) as [[[x0 y0] x1] y1] eqn:E.
  destruct ((x0 <? x1) && (y0 <? y1)) eqn:G; [|done].
  exfalso. apply andb_true_iff in G as [Gx Gy].
  destruct mon as [[[mx my] mr] mb], v as [[[vx vy] vr] vb].
  cbn in E. injection E as <- <- <- <-.
  apply (Hempty (mx + Z.max 0 (vx - mx)) (my + Z.max 0 (vy - my))).
  unfold in_rect. lia.
Qed.

End ArrayFacts.

(* ===================================================================== *)
(** * Inversion and masking of frames                                     *)
(* ===================================================================== *)

Section FrameTheorems.
Import Frames Geometry.

(** C6 (invert-invert identity): on a channel value [v] between 0 and
    255, [invert_colors] computes [255 - v], and inverting twice gives
    [v] back. *)
Theorem invert_invert_identity (v : Z) :
  0 <= v <= 255 ->
  ColorInverter.invert_value v = 255 - v
  /\ ColorInverter.invert_value (ColorInverter.invert_value v) = v.
Proof.
  intros Hv. assert (Hb : is_uint8 v) by (unfold is_uint8; lia).
  rewrite (invert_value_small v Hb). split; [done|].
  rewrite invert_value_small by (unfold is_uint8; lia). lia.
Qed.

Lemma invert_invert_identity_witness :
  ColorInverter.invert_value 200 = 255 - 200
  /\ ColorInverter.invert_value (ColorInverter.invert_value 200) = 200.
Proof. apply (invert_invert_identity 200). lia. Defined.

(** The same on whole frames. *)
Lemma invert_colors_involutive (img : frame) :
  frame_uint8 img ->
  ColorInverter.invert_colors (ColorInverter.invert_colors img) = img.
Proof.
  intros Hbytes. unfold ColorInverter.invert_colors.
  rewrite <- list_fmap_compose. rewrite <- (list_fmap_id img) at 2.
  apply Forall_fmap_ext. eapply Forall_impl; [exact Hbytes|].
  intros row Hrow. cbn. rewrite <- list_fmap_compose.
  unfold id. rewrite <- (list_fmap_id row) at 2.
  apply Forall_fmap_ext. eapply Forall_impl; [exact Hrow|].
  intros [r g b] (Hr & Hg & Hb). cbn in *.
  unfold ColorInverter.invert_pixel, is_uint8 in *. cbn.
  f_equal; rewrite !invert_value_small;
    rewrite ?invert_value_small; unfold is_uint8; lia.
Qed.

(** C7 (exclusion idempotence): masking a frame a second time with the
    same rectangles, overlapping or not, gives the frame of the first
    masking. *)
Theorem mask_video_regions_idempotent (mon : rect) (img : frame)
        (ws : list rect) :
  ColorInverter.mask_video_regions mon
    (ColorInverter.mask_video_regions mon img ws) ws
  = ColorInverter.mask_video_regions mon img ws.
Proof.
  destruct ws as [|v ws]; [done|].
  rewrite (mask_video_regions_zip mon img).
  set (m := ColorInverter.build_mask mon img (v :: ws)).
  assert (Hm : has_shape (height img) (width img) m)
    by apply build_mask_shape.
  rewrite mask_video_regions_zip.
  rewrite (build_mask_same_shape mon _ img)
    by (by apply zip2_height || by apply zip2_width).
  fold m. rewrite zip2_twice. apply zip2_ext.
  intros px k. apply and_pixel_idem.
Qed.

(** What masking does to one pixel of a rectangular uint8 frame. *)
Lemma mask_video_regions_pixel mon (img : frame) ws h w r c px :
  has_shape h w img -> frame_uint8 img ->
  at2 img r c = Some px ->
  at2 (ColorInverter.mask_video_regions mon img ws) r c
  = Some (if excluded mon ws r c then black else px).
Proof.
  intros Hshape Hbytes Hat. destruct ws as [|v ws]; [done|].
  rewrite (at2_mask_video_regions mon img v ws h w r c px Hshape Hat).
  destruct (excluded mon (v :: ws) r c).
  - by rewrite and_pixel_0.
  - rewrite and_pixel_255; [done|]. by eapply at2_frame_uint8.
Qed.

(** C5 (clipping): with one rectangle, a pixel is masked exactly when
    its screen point lies both in the rectangle and in the monitor; all
    other pixels keep their values, and a rectangle that has no point in
    common with the monitor leaves the whole frame as it was. *)
Theorem mask_clips_to_monitor (mon v : rect) (img : frame)
        (h w r c : nat) (px : pixel) :
  has_shape h w img -> frame_uint8 img ->
  at2 img r c = Some px ->
  let out := ColorInverter.mask_video_regions mon img [v] in
  let x := screen_x mon c in
  let y := screen_y mon r in
  (in_rect v x y /\ in_rect mon x y -> at2 out r c = Some black)
  /\ (~ (in_rect v x y /\ in_rect mon x y) -> at2 out r c = Some px)
  /\ ((forall x' y', ~ (in_rect v x' y' /\ in_rect mon x' y')) ->
      out = img).
Proof.
  intros Hshape Hbytes Hat out x y.
  pose proof (mask_video_regions_pixel mon img [v] h w r c px
                Hshape Hbytes Hat) as Hpx.
  fold out in Hpx. cbn [excluded existsb] in Hpx.
  rewrite orb_false_r in Hpx.
  pose proof (in_clip_overlap mon v r c) as Hclip. fold x y in Hclip.
  repeat split.
  - intros Hin. apply Hclip in Hin. by rewrite Hin in Hpx.
  - intros Hout. destruct (in_clip _ r c); [|done].
    exfalso. apply Hout. by apply Hclip.
  - intros Hempty. unfold out. rewrite mask_video_regions_zip.
    unfold ColorInverter.build_mask. cbn [fold_left].
    rewrite (mask_one_no_overlap mon _ v Hempty).
    assert (Hne : img <> []) by (intros ->; done).
    rewrite (has_shape_height _ _ _ Hshape),
      (has_shape_width _ _ _ Hshape Hne).
    by apply and_ones_id.
Qed.

Lemma mask_clips_to_monitor_witness :
  at2 (ColorInverter.mask_video_regions (0, 0, 2, 2)
         [[RGB 1 2 3; RGB 4 5 6]; [RGB 7 8 9; RGB 10 11 12]]
         [(1, 1, 5, 5)]) 1 1
  = Some black.
Proof.
  refine (proj1 (mask_clips_to_monitor (0, 0, 2, 2) (1, 1, 5, 5)
            [[RGB 1 2 3; RGB 4 5 6]; [RGB 7 8 9; RGB 10 11 12]]
            2 2 1 1 (RGB 10 11 12) _ _ _) _).
  - split; [reflexivity | repeat constructor].
  - repeat constructor; cbn; lia.
  - reflexivity.
  - cbn. lia.
Defined.

(** C1, as stated, fails: inside the excluded rectangle the frame handed
    to the renderer is black, not the captured pixel. *)
Lemma exclusion_does_not_restore_captured_pixels :
  ~ (forall (mon R : rect) (img : frame) (r c : nat) (px : pixel),
        monitor_frame mon img -> frame_uint8 img ->
        inside_monitor mon R ->
        at2 img r c = Some px ->
        in_rect R (screen_x mon c) (screen_y mon r) ->
        at2 (ColorInverter.process_frame mon [R] img) r c = Some px).
Proof.
  intros H.
  specialize (H (0, 0, 2, 1) (1, 0, 2, 1)
                [[RGB 10 20 30; RGB 40 50 60]] 0%nat 1%nat (RGB 40 50 60)).
  cbn in H.
  assert (Some black = Some (RGB 40 50 60)) as Habs; [|discriminate Habs].
  apply H.
  - exists 1%nat, 2%nat. repeat split; repeat constructor.
  - repeat constructor; cbn; lia.
  - lia.
  - reflexivity.
  - lia.
Qed.

(** C1 (amended): for a frame of the monitor and one rectangle inside
    the monitor, the frame handed to the renderer is black (0 in every
    channel) at every pixel inside the rectangle and holds the inverted
    values [255 - v] at every pixel outside it. *)
Theorem exclusion_blackens_inside_inverts_outside
        (mon R : rect) (img : frame) (r c : nat) (px : pixel) :
  monitor_frame mon img -> frame_uint8 img ->
  inside_monitor mon R ->
  at2 img r c = Some px ->
  let out := ColorInverter.process_frame mon [R] img in
  let x := screen_x mon c in
  let y := screen_y mon r in
  (in_rect R x y -> at2 out r c = Some black)
  /\ (~ in_rect R x y ->
      at2 out r c
      = Some (RGB (255 - red px) (255 - green px) (255 - blue px))).
Proof.
  intros Hmon Hbytes Hinside Hat out x y.
  assert (exists h w, has_shape h w img
                      /\ in_rect mon x y) as (h & w & Hshape & Hxy).
  { destruct mon as [[[mx my] mr] mb].
    destruct Hmon as (h & w & Hshape & Hw & Hh).
    exists h, w. split; [done|].
    destruct (at2_Some_lt _ _ _ _ _ _ Hshape Hat) as [Hr Hc].
    unfold in_rect, x, y, screen_x, screen_y. lia. }
  assert (Hinv : at2 (ColorInverter.invert_colors img) r c
                 = Some (ColorInverter.invert_pixel px))
    by (by rewrite at2_invert_colors, Hat).
  pose proof (at2_mask_video_regions mon _ R [] h w r c _
                (invert_colors_shape h w img Hshape) Hinv) as Hout.
  change (ColorInverter.mask_video_regions mon
            (ColorInverter.invert_colors img) [R]) with out in Hout.
  cbn [excluded existsb] in Hout. rewrite orb_false_r in Hout.
  pose proof (in_clip_overlap mon R r c) as Hclip. fold x y in Hclip.
  split.
  - intros Hin. rewrite Hout.
    rewrite (proj2 Hclip (conj Hin Hxy)). by rewrite and_pixel_0.
  - intros Hnot. rewrite Hout.
    destruct (in_clip _ r c) eqn:E.
    + exfalso. apply Hnot. by apply Hclip.
    + rewrite (and_pixel_255 _ (invert_pixel_uint8 px)).
      destruct (at2_frame_uint8 img r c px Hbytes Hat) as (Hr & Hg & Hb).
      unfold ColorInverter.invert_pixel.
      by rewrite !invert_value_small.
Qed.

Lemma exclusion_blackens_inside_inverts_outside_witness :
  at2 (ColorInverter.process_frame (0, 0, 2, 1) [(1, 0, 2, 1)]
         [[RGB 10 20 30; RGB 40 50 60]]) 0 0
  = Some (RGB 245 235 225).
Proof.
  refine (proj2 (exclusion_blackens_inside_inverts_outside
            (0, 0, 2, 1) (1, 0, 2, 1) [[RGB 10 20 30; RGB 40 50 60]]
            0 0 (RGB 10 20 30) _ _ _ _) _).
  - exists 1%nat, 2%nat. repeat split; repeat constructor.
  - repeat constructor; cbn; lia.
  - cbn. lia.
  - reflexivity.
  - cbn. lia.
Defined.

(** The channel loop on the store writes the masked array at the
    reference. *)
Lemma store_channel_loop (mask : plane) (a : ColorInverter.ref)
      (h : gmap ColorInverter.ref frame) (img : frame) :
  h !! a = Some img ->
  fold_left (ColorInverter.store_mask_channel mask a) (seq 0 3) h
  = <[a := fold_left (ColorInverter.apply_mask_channel mask) (seq 0 3) img]> h.
Proof.
  intros Ha. cbn. unfold ColorInverter.store_mask_channel.
  rewrite Ha. rewrite !lookup_insert_eq. by rewrite !insert_insert_eq.
Qed.

(** C8 (in-place mutation): [mask_video_regions] returns the reference
    it was given; afterwards the array at that reference holds the
    masked frame, whether or not the caller keeps the return value; no
    other array changes; pixels in a clipped rectangle are blackened and
    every other pixel keeps its value; without rectangles nothing is
    written. *)
Theorem mask_video_regions_mutates_in_place
        (mon : rect) (h : gmap ColorInverter.ref frame)
        (a : ColorInverter.ref) (img : frame) (ws : list rect)
        (hh w r c : nat) (px : pixel) :
  h !! a = Some img ->
  has_shape hh w img -> frame_uint8 img ->
  at2 img r c = Some px ->
  exists h' img',
    ColorInverter.mask_video_regions_ref mon h a ws = Some (h', a)
    /\ h' !! a = Some img'
    /\ img' = ColorInverter.mask_video_regions mon img ws
    /\ (forall b, b <> a -> h' !! b = h !! b)
    /\ (ws = [] -> h' = h)
    /\ at2 img' r c = Some (if excluded mon ws r c then black else px).
Proof.
  intros Ha Hshape Hbytes Hat.
  unfold ColorInverter.mask_video_regions_ref. rewrite Ha.
  destruct ws as [|v ws].
  - exists h, img. repeat split; try done.
  - rewrite (store_channel_loop _ a h img Ha).
    eexists _, _. split; [reflexivity|].
    split; [apply lookup_insert_eq|].
    split; [reflexivity|].
    split; [intros b Hb; by apply lookup_insert_ne|].
    split; [done|].
    apply (mask_video_regions_pixel mon img (v :: ws) hh w r c px
             Hshape Hbytes Hat).
Qed.

Lemma mask_video_regions_mutates_in_place_witness :
  exists h' img',
    ColorInverter.mask_video_regions_ref (0, 0, 2, 1)
      {[ 7%nat := [[RGB 10 20 30; RGB 40 50 60]] ]} 7%nat [(1, 0, 9, 9)]
    = Some (h', 7%nat)
    /\ h' !! 7%nat = Some img'
    /\ img' = ColorInverter.mask_video_regions (0, 0, 2, 1)
                [[RGB 10 20 30; RGB 40 50 60]] [(1, 0, 9, 9)]
    /\ (forall b, b <> 7%nat ->
        h' !! b
        = ({[ 7%nat := [[RGB 10 20 30; RGB 40 50 60]] ]}
             : gmap ColorInverter.ref frame) !! b)
    /\ ([(1, 0, 9, 9)] = @nil rect ->
        h' = {[ 7%nat := [[RGB 10 20 30; RGB 40 50 60]] ]})
    /\ at2 img' 0 1 = Some black.
Proof.
  apply (mask_video_regions_mutates_in_place (0, 0, 2, 1)
           {[ 7%nat := [[RGB 10 20 30; RGB 40 50 60]] ]} 7%nat
           [[RGB 10 20 30; RGB 40 50 60]] [(1, 0, 9, 9)]
           1 2 0 1 (RGB 40 50 60)).
  - apply lookup_singleton_eq.
  - split; [reflexivity | repeat constructor].
  - repeat constructor; cbn; lia.
  - reflexivity.
Defined.

End FrameTheorems.

(* ===================================================================== *)
(** * The capture loop                                                    *)
(* ===================================================================== *)

Section CaptureLoop.
Import Frames ColorInverter.

(** A pass that completes is followed by the sleep and the rest of the
    loop. *)
Lemma capture_loop_pass_ok mon e rest evs :
  env_running e = true ->
  cycle_body mon e = (evs, None) ->
  capture_and_invert mon (e :: rest)
  = let '(tr, n, ex) := capture_and_invert mon rest in
    (evs ++ Slept :: tr, S n, ex).
Proof. intros Hrun Hbody. cbn. by rewrite Hrun, Hbody. Qed.

(** A pass that raises ends the loop. *)
Lemma capture_loop_pass_raises mon e rest evs msg :
  env_running e = true ->
  cycle_body mon e = (evs, Some msg) ->
  capture_and_invert mon (e :: rest)
  = (evs ++ [ErrorPrinted msg], 1%nat, BrokeOnError).
Proof. intros Hrun Hbody. cbn. by rewrite Hrun, Hbody. Qed.

(** C3, as stated, fails: after a pass that raises, the next pass is not
    entered although the running flag is still set. *)
Lemma capture_error_does_not_continue :
  ~ (forall mon e rest evs msg,
        env_running e = true ->
        cycle_body mon e = (evs, Some msg) ->
        Forall (fun e' => env_running e' = true) rest ->
        Observations.passes_of (capture_and_invert mon (e :: rest))
        = S (Observations.passes_of (capture_and_invert mon rest))).
Proof.
  intros H.
  specialize (H (0, 0, 1, 1)
                (CycleEnv true true (Raise "grab failed") (Ok []) true (Ok tt))
                [CycleEnv true true (Ok [[RGB 1 2 3]]) (Ok []) true (Ok tt)]
                [] "grab failed" eq_refl eq_refl).
  cbn in H. discriminate H. repeat constructor.
Qed.

(** C3 (amended): when a pass of the capture loop raises, the error is
    printed and the loop ends there ([break]): after any number of
    passes that completed, the failing pass is the last one entered,
    whatever the running flag and the later observations are. *)
Theorem capture_error_breaks_the_loop
        (mon : rect) (pre : list cycle_env) (e : cycle_env)
        (rest : list cycle_env) (evs : list event) (msg : string) :
  Forall (fun e' => env_running e' = true
                    /\ snd (cycle_body mon e') = None) pre ->
  env_running e = true ->
  cycle_body mon e = (evs, Some msg) ->
  exists tr,
    capture_and_invert mon (pre ++ e :: rest)
    = (tr ++ evs ++ [ErrorPrinted msg], S (length pre), BrokeOnError).
Proof.
  intros Hpre Hrun Hbody.
  induction Hpre as [|e' pre [Hrun' Hok] _ IH].
  - exists []. cbn [app length].
    by apply capture_loop_pass_raises.
  - destruct IH as [tr IH].
    destruct (cycle_body mon e') as [evs' o] eqn:Hbody'.
    cbn in Hok. subst o.
    exists (evs' ++ Slept :: tr).
    cbn [app length].
    rewrite (capture_loop_pass_ok mon e' _ evs' Hrun' Hbody'), IH.
    by rewrite <- app_assoc.
Qed.

Lemma capture_error_breaks_the_loop_witness :
  exists tr,
    capture_and_invert (0, 0, 1, 1)
      ([CycleEnv true false (Ok []) (Ok []) true (Ok tt)]
         ++ CycleEnv true true (Raise "grab failed") (Ok []) true (Ok tt)
         :: [CycleEnv true true (Ok [[RGB 1 2 3]]) (Ok []) true (Ok tt)])
    = (tr ++ [] ++ [ErrorPrinted "grab failed"], 2%nat, BrokeOnError).
Proof.
  apply (capture_error_breaks_the_loop (0, 0, 1, 1)
           [CycleEnv true false (Ok []) (Ok []) true (Ok tt)]
           (CycleEnv true true (Raise "grab failed") (Ok []) true (Ok tt))
           [CycleEnv true true (Ok [[RGB 1 2 3]]) (Ok []) true (Ok tt)]
           [] "grab failed").
  - repeat constructor.
  - reflexivity.
  - reflexivity.
Defined.

(** With the flag off a pass only clears the canvas. *)
Lemma cycle_body_inactive mon e :
  env_inversion_active e = false ->
  cycle_body mon e
  = (if env_overlay_ready e then [CanvasCleared] else [], None).
Proof.
  intros Hoff. unfold cycle_body. rewrite Hoff.
  by destruct (env_overlay_ready e).
Qed.

End CaptureLoop.

(* ===================================================================== *)
(** * The initial state of the inversion                                  *)
(* ===================================================================== *)

Section InitialState.
Import ColorInverter Observations.

(** While the flag is off, the loop clears and sleeps, and nothing
    raises. *)
Lemma capture_loop_inactive mon script :
  Forall (fun e => env_inversion_active e = false) script ->
  Forall idle_event (trace_of (capture_and_invert mon script))
  /\ exit_of (capture_and_invert mon script) <> BrokeOnError.
Proof.
  induction 1 as [|e script Hoff _ [IHtr IHex]]; cbn.
  - split; [constructor | done].
  - destruct (env_running e); [|split; [constructor | done]].
    rewrite (cycle_body_inactive mon e Hoff).
    destruct (capture_and_invert mon script) as [[tr n] ex].
    unfold trace_of, exit_of in *. cbn in *.
    split; [|done].
    destruct (env_overlay_ready e); cbn;
      repeat (constructor; [unfold idle_event; tauto|]); done.
Qed.

(** C10 (inversion starts disabled): a new [ColorInverter] has
    [inversion_active] false, and still has after [start]; as long as
    the loop reads that value it only clears the overlay and sleeps, and
    never captures; [stop_detection] resets [inversion_enabled] and
    drops the inverter, and the next [start_detection] begins with both
    flags false. *)
Theorem inversion_starts_disabled
        (mon : rect) (d d1 d2 : desktop) (script : list cycle_env)
        (g : InverterGUI.t) :
  let inv := snd (start d (init mon)) in
  Forall (fun e => env_inversion_active e = inversion_active inv) script ->
  inversion_active (init mon) = false
  /\ inversion_active inv = false
  /\ Forall idle_event (trace_of (capture_and_invert mon script))
  /\ ~ In Captured (trace_of (capture_and_invert mon script))
  /\ (let g1 := snd (InverterGUI.stop_detection d1 g) in
      InverterGUI.inversion_enabled g1 = false
      /\ InverterGUI.inverter g1 = None
      /\ (let g2 := snd (InverterGUI.start_detection d2 g1) in
          InverterGUI.inversion_enabled g2 = false
          /\ forall inv2, InverterGUI.inverter g2 = Some inv2 ->
                          inversion_active inv2 = false)).
Proof.
  intros inv Hreads.
  assert (Hinv : inversion_active inv = false) by reflexivity.
  assert (Hoff : Forall (fun e => env_inversion_active e = false) script).
  { eapply Forall_impl; [exact Hreads|]. intros e He. by rewrite He. }
  destruct (capture_loop_inactive mon script Hoff) as [Hidle _].
  split; [reflexivity|]. split; [exact Hinv|]. split; [exact Hidle|].
  split.
  { intros Hin. rewrite Forall_forall in Hidle.
    apply list_elem_of_In in Hin.
    destruct (Hidle _ Hin) as [Hc | Hc]; discriminate Hc. }
  cbn zeta. split; [reflexivity|]. split; [reflexivity|].
  unfold InverterGUI.start_detection.
  cbn -[WindowsKeyDetector.start InverterGUI.py_index].
  destruct (InverterGUI.combo_current g <? 0); cbn.
  { split; [reflexivity | intros inv2 Hinv2; discriminate Hinv2]. }
  destruct (InverterGUI.py_index _ _) as [m|];
    cbn -[WindowsKeyDetector.start].
  - split; [reflexivity|]. by intros inv2 [= <-].
  - split; [reflexivity | intros inv2 Hinv2; discriminate Hinv2].
Qed.

Lemma inversion_starts_disabled_witness :
  ~ In Captured
      (trace_of
         (capture_and_invert (0, 0, 1, 1)
            [CycleEnv true false (Ok [[Frames.RGB 1 2 3]]) (Ok []) true
                      (Ok tt);
             CycleEnv true false (Ok [[Frames.RGB 1 2 3]]) (Ok []) false
                      (Ok tt)])).
Proof.
  refine (proj1 (proj2 (proj2 (proj2
            (inversion_starts_disabled (0, 0, 1, 1)
               (Desktop [] [] [] 0%nat) (Desktop [] [] [] 0%nat)
               (Desktop [] [] [] 0%nat)
               [CycleEnv true false (Ok [[Frames.RGB 1 2 3]]) (Ok []) true
                         (Ok tt);
                CycleEnv true false (Ok [[Frames.RGB 1 2 3]]) (Ok []) false
                         (Ok tt)]
               (InverterGUI.init [] 0) _))))).
  repeat constructor.
Defined.

End InitialState.

(* ===================================================================== *)
(** * The callback list                                                   *)
(* ===================================================================== *)

Section CallbackList.
Import WindowsKeyDetector.
Context {Cb : Type} `{EqDecision Cb}.

Lemma list_remove_is_Some (x : Cb) (l : list Cb) :
  x ∈ l -> is_Some (list_remove x l).
Proof.
  induction l as [|y l IH]; intros Hin.
  - by apply not_elem_of_nil in Hin.
  - cbn. destruct (decide (y = x)) as [->|Hne]; [by eexists|].
    apply elem_of_cons in Hin as [->|Hin]; [done|].
    destruct (IH Hin) as [l' ->]. by eexists.
Qed.

Lemma list_remove_perm (x : Cb) (l l' : list Cb) :
  list_remove x l = Some l' -> l ≡ₚ x :: l'.
Proof.
  revert l'. induction l as [|y l IH]; intros l' Hrem; [done|].
  cbn in Hrem. destruct (decide (y = x)) as [->|Hne].
  - by injection Hrem as <-.
  - destruct (list_remove x l) as [k|]; [|done].
    cbn in Hrem. injection Hrem as <-.
    rewrite (IH k eq_refl). apply Permutation_swap.
Qed.

Lemma list_remove_snoc (x : Cb) (l : list Cb) :
  x ∉ l -> list_remove x (l ++ [x]) = Some l.
Proof.
  induction l as [|y l IH]; intros Hnot; cbn.
  - by rewrite decide_True.
  - apply not_elem_of_cons in Hnot as [Hne Hnot].
    rewrite decide_False by done. by rewrite (IH Hnot).
Qed.

(** C9 (amended): [remove_callback] never raises.  For a callback that
    is not registered it leaves the detector as it is, and
    [add_callback] followed by [remove_callback] of it gives the
    detector back.  For any callback, [add_callback] followed by
    [remove_callback] keeps the registered callbacks with their
    multiplicities; the entry removed is the first equal one, so the
    order is kept only up to permutation. *)
Theorem remove_callback_safe (cb : Cb) (self : t Cb) :
  (exists self', remove_callback cb self = Ok self')
  /\ (exists self', remove_callback cb (add_callback cb self) = Ok self'
                    /\ callbacks self' ≡ₚ callbacks self)
  /\ (cb ∉ callbacks self ->
      remove_callback cb self = Ok self
      /\ remove_callback cb (add_callback cb self) = Ok self).
Proof.
  split; [|split].
  - unfold remove_callback. case_bool_decide as Hin; [|by eexists].
    destruct (list_remove_is_Some _ _ Hin) as [l ->]. by eexists.
  - unfold remove_callback.
    assert (Hin : cb ∈ callbacks (add_callback cb self)).
    { cbn. apply elem_of_app. right. by apply list_elem_of_singleton. }
    rewrite bool_decide_eq_true_2 by done.
    destruct (list_remove_is_Some _ _ Hin) as [l Hl]. rewrite Hl.
    eexists. split; [reflexivity|]. cbn.
    apply list_remove_perm in Hl. cbn in Hl.
    apply (Permutation_cons_inv (a := cb)).
    rewrite <- Hl. by rewrite Permutation_app_comm.
  - intros Hnot. split.
    + unfold remove_callback. by rewrite bool_decide_eq_false_2.
    + unfold remove_callback.
      rewrite bool_decide_eq_true_2
        by (cbn; apply elem_of_app; right; by apply list_elem_of_singleton).
      cbn [add_callback with_callbacks callbacks].
      rewrite (list_remove_snoc _ _ Hnot). f_equal. by destruct self.
Qed.

End CallbackList.

(** C9, as stated, fails for a callback that is already registered: the
    added copy stays and the earlier entry goes. *)
Lemma add_then_remove_reorders_duplicates :
  ~ (forall (cb : nat) (self : WindowsKeyDetector.t nat),
        WindowsKeyDetector.remove_callback cb
          (WindowsKeyDetector.add_callback cb self)
        = Ok self).
Proof.
  intros H.
  specialize (H 1%nat (WindowsKeyDetector.Make 2000 false 0 false None
                         [1%nat; 2%nat])).
  vm_compute in H. discriminate H.
Qed.

Lemma remove_callback_safe_witness :
  WindowsKeyDetector.remove_callback 3%nat
    (WindowsKeyDetector.Make 2000 false 0 false None [1%nat; 2%nat])
  = Ok (WindowsKeyDetector.Make 2000 false 0 false None [1%nat; 2%nat]).
Proof.
  refine (proj1 (proj2 (proj2
            (remove_callback_safe 3%nat
               (WindowsKeyDetector.Make 2000 false 0 false None
                  [1%nat; 2%nat]))) _)).
  cbn. intros Hin. repeat (apply elem_of_cons in Hin as [Hin|Hin]; [lia|]).
  by apply not_elem_of_nil in Hin.
Defined.

(* ===================================================================== *)
(** * The hold gesture                                                    *)
(* ===================================================================== *)

Section HoldGesture.
Import WindowsKeyDetector Observations.

(** A poll that finds the key still down once the threshold is reached
    calls every callback and restarts the timer; [key_pressed] stays set,
    so the same hold can reach the threshold again. *)
Lemma poll_step_fires_and_rearms {Cb} (raises : Cb -> bool) (self : t Cb)
      (now : Z) :
  key_pressed self = true ->
  hold_duration self <= now - press_start_time self ->
  poll_step raises self true now
  = (with_key true now self, run_callbacks raises (callbacks self)).
Proof.
  intros Hkey Hheld. unfold poll_step. rewrite Hkey. cbn.
  destruct (hold_duration self <=? now - press_start_time self) eqn:E;
    [done | lia].
Qed.

(** C2 on the code: with the key down at every poll from time 0 and no
    release, the callback has been called once when the hold reaches
    the threshold (2000 ms), and it is called a second time when the
    same hold reaches 4000 ms. *)
Theorem hold_fires_again_without_release :
  fire_count InverterGUI.toggle_inversion_method
    (snd (detection_loop never_raises armed_detector (held_down 201)))
  = 1%nat
  /\ fire_count InverterGUI.toggle_inversion_method
       (snd (detection_loop never_raises armed_detector (held_down 401)))
     = 2%nat.
Proof. split; vm_compute; reflexivity. Qed.

End HoldGesture.

(* ===================================================================== *)
(** * Starting and stopping                                               *)
(* ===================================================================== *)

Section Lifecycle.

Lemma filter_ne_twice (w : handle) (l : list handle) :
  filter (fun x => x <> w) (filter (fun x => x <> w) l)
  = filter (fun x => x <> w) l.
Proof.
  induction l as [|x l IH]; [done|].
  rewrite (filter_cons (fun x => x <> w) x l).
  destruct (decide (x <> w)) as [Hx|Hx]; [|exact IH].
  rewrite filter_cons_True by done. by rewrite IH.
Qed.

(** [ColorInverter.start] has no guard: one more overlay and one more
    capture thread at every call. *)
Lemma inverter_start_adds d self :
  length (overlays (fst (ColorInverter.start d self)))
  = S (length (overlays d))
  /\ length (capture_threads (fst (ColorInverter.start d self)))
     = S (length (capture_threads d)).
Proof. cbn. rewrite !length_app. cbn. lia. Qed.

Lemma detector_start_twice {Cb} d (det : WindowsKeyDetector.t Cb) :
  let r := WindowsKeyDetector.start d det in
  WindowsKeyDetector.start (fst r) (snd r) = r.
Proof.
  cbn zeta. unfold WindowsKeyDetector.start.
  destruct (WindowsKeyDetector.running det) eqn:Hrun; cbn.
  - by rewrite Hrun.
  - reflexivity.
Qed.

Lemma inverter_stop_twice d self :
  let r := ColorInverter.stop d self in
  ColorInverter.stop (fst r) (snd r) = r.
Proof.
  cbn zeta. unfold ColorInverter.stop.
  destruct (ColorInverter.overlay_window self) as [w|] eqn:Hw; cbn.
  - by rewrite filter_ne_twice.
  - reflexivity.
Qed.

Lemma stop_detection_twice d g :
  let r := InverterGUI.stop_detection d g in
  InverterGUI.stop_detection (fst r) (snd r) = r.
Proof. reflexivity. Qed.

(** C4, as stated, fails: a second [start] of a started inverter creates
    a second overlay window and a second capture thread. *)
Lemma second_start_creates_second_overlay :
  ~ (forall d self,
        let r1 := ColorInverter.start d self in
        let r2 := ColorInverter.start (fst r1) (snd r1) in
        length (overlays (fst r2)) = length (overlays (fst r1))
        /\ length (capture_threads (fst r2))
           = length (capture_threads (fst r1))).
Proof.
  intros H.
  destruct (H (Desktop [] [] [] 0%nat) (ColorInverter.init (0, 0, 1, 1)))
    as [Habs _].
  vm_compute in Habs. discriminate Habs.
Qed.

(** C4 (amended): [ColorInverter.start] is not guarded, so every call,
    also on a started inverter, creates one more overlay window and one
    more capture thread, and [start_detection] either reports an error
    and changes nothing else, or does the same and disables the start
    button; [WindowsKeyDetector.start] is guarded and a second call
    changes nothing; stopping what is already stopped
    ([ColorInverter.stop], [stop_detection]) changes nothing. *)
Theorem start_adds_stop_is_idempotent
        (d : desktop) (self : ColorInverter.t)
        (det : WindowsKeyDetector.t InverterGUI.callback)
        (g : InverterGUI.t) :
  (length (overlays (fst (ColorInverter.start d self)))
   = S (length (overlays d))
   /\ length (capture_threads (fst (ColorInverter.start d self)))
      = S (length (capture_threads d)))
  /\ (let r := InverterGUI.start_detection d g in
      (exists msg, r = (d, InverterGUI.show_error msg g))
      \/ (InverterGUI.start_button_enabled (snd r) = false
          /\ length (overlays (fst r)) = S (length (overlays d))
          /\ length (capture_threads (fst r))
             = S (length (capture_threads d))))
  /\ (let r := WindowsKeyDetector.start d det in
      WindowsKeyDetector.start (fst r) (snd r) = r)
  /\ (let r := ColorInverter.stop d self in
      ColorInverter.stop (fst r) (snd r) = r)
  /\ (let r := InverterGUI.stop_detection d g in
      InverterGUI.stop_detection (fst r) (snd r) = r).
Proof.
  split; [apply inverter_start_adds|].
  split; [|split; [apply detector_start_twice|
                   split; [apply inverter_stop_twice|
                           apply stop_detection_twice]]].
  cbn zeta. unfold InverterGUI.start_detection.
  destruct (InverterGUI.combo_current g <? 0); [left; by eexists|].
  destruct (InverterGUI.py_index _ _) as [m|]; [|left; by eexists].
  right. unfold WindowsKeyDetector.start.
  destruct (WindowsKeyDetector.running _); cbn;
    rewrite !length_app; cbn; repeat split; lia.
Qed.

End Lifecycle.

Example mask_demo :
  ColorInverter.process_frame (0, 0, 2, 1) [(1, 0, 5, 5)]
    [[Frames.RGB 10 20 30; Frames.RGB 1 2 3]]
  = [[Frames.RGB 245 235 225; Frames.RGB 0 0 0]].
Proof. reflexivity. Qed.

Example restart_registers_the_callback_twice :
  let r1 := InverterGUI.start_detection (Desktop [] [] [] 0%nat)
              (InverterGUI.init
                 [InverterGUI.Monitor (0, 0, 1, 1) "DISPLAY1" true] 0) in
  let r2 := InverterGUI.stop_detection (fst r1) (snd r1) in
  let r3 := InverterGUI.start_detection (fst r2) (snd r2) in
  WindowsKeyDetector.callbacks (InverterGUI.windows_key_detector (snd r3))
  = [InverterGUI.toggle_inversion_method; InverterGUI.toggle_inversion_method].
Proof. reflexivity. Qed.

(* ===================================================================== *)
(** * More on frames                                                      *)
(* ===================================================================== *)

Section FrameExtras.
Import Frames Geometry.

Lemma invert_colors_involutive_witness :
  ColorInverter.invert_colors
    (ColorInverter.invert_colors [[RGB 0 128 255]; [RGB 7 8 9]])
  = [[RGB 0 128 255]; [RGB 7 8 9]].
Proof.
  apply (invert_colors_involutive [[RGB 0 128 255]; [RGB 7 8 9]]).
  repeat constructor; cbn; lia.
Defined.

Lemma at2_is_Some {A} (a : list (list A)) h w r c :
  has_shape h w a -> (r < h)%nat -> (c < w)%nat -> is_Some (at2 a r c).
Proof.
  intros [Hh Hw] Hr Hc. unfold at2.
  destruct (lookup_lt_is_Some_2 a r) as [row Hrow]; [lia|].
  rewrite Hrow. cbn. apply lookup_lt_is_Some_2.
  rewrite Forall_lookup in Hw. by rewrite (Hw _ _ Hrow).
Qed.

(** Two arrays of one shape with the same entries are equal. *)
Lemma array_ext {A} (a b : list (list A)) h w :
  has_shape h w a -> has_shape h w b ->
  (forall r c, (r < h)%nat -> (c < w)%nat -> at2 a r c = at2 b r c) ->
  a = b.
Proof.
  intros [Ha Hwa] [Hb Hwb] Heq. apply list_eq. intros r.
  destruct (decide (r < h)%nat) as [Hr|Hr].
  - destruct (lookup_lt_is_Some_2 a r) as [ra Hra]; [lia|].
    destruct (lookup_lt_is_Some_2 b r) as [rb Hrb]; [lia|].
    rewrite Hra, Hrb. f_equal.
    rewrite Forall_lookup in Hwa, Hwb.
    pose proof (Hwa _ _ Hra) as La. pose proof (Hwb _ _ Hrb) as Lb.
    apply list_eq. intros c.
    destruct (decide (c < w)%nat) as [Hc|Hc].
    + specialize (Heq r c Hr Hc). unfold at2 in Heq.
      by rewrite Hra, Hrb in Heq.
    + rewrite !lookup_ge_None_2; [done | lia | lia].
  - rewrite !lookup_ge_None_2; [done | lia | lia].
Qed.

Lemma zip2_shape {A B} (f : A -> B -> A) (a : list (list A))
      (b : list (list B)) h w :
  has_shape h w a -> has_shape h w b ->
  has_shape h w (zip_with (zip_with f) a b).
Proof.
  intros [Ha Hwa] [Hb Hwb]. split.
  - rewrite length_zip_with_l_eq; lia.
  - apply Forall_lookup. intros i row Hrow.
    apply lookup_zip_with_Some in Hrow as (ra & rb & -> & Hra & Hrb).
    rewrite Forall_lookup in Hwa. rewrite Forall_lookup in Hwb.
    rewrite length_zip_with_l_eq; [by eapply Hwa|].
    by rewrite (Hwa _ _ Hra), (Hwb _ _ Hrb).
Qed.

Lemma build_mask_shape_of mon (img : frame) ws h w :
  has_shape h w img -> img <> [] ->
  has_shape h w (ColorInverter.build_mask mon img ws).
Proof.
  intros Hshape Hne.
  pose proof (build_mask_shape mon img ws) as Hm.
  by rewrite (has_shape_height _ _ _ Hshape),
    (has_shape_width _ _ _ Hshape Hne) in Hm.
Qed.

Lemma mask_video_regions_shape mon (img : frame) ws h w :
  has_shape h w img ->
  has_shape h w (ColorInverter.mask_video_regions mon img ws).
Proof.
  intros Hshape. destruct ws as [|v ws]; [done|].
  destruct img as [|row img].
  { unfold ColorInverter.mask_video_regions. by cbn. }
  rewrite mask_video_regions_zip. apply zip2_shape; [done|].
  by apply build_mask_shape_of.
Qed.

Lemma excluded_ext mon ws ws' r c :
  (forall v, v ∈ ws <-> v ∈ ws') ->
  excluded mon ws r c = excluded mon ws' r c.
Proof.
  intros Hsame. unfold excluded.
  apply eq_true_iff_eq. rewrite !existsb_exists.
  split; intros (v & Hin & Hv); exists v; split; try done;
    apply list_elem_of_In; apply list_elem_of_In in Hin; by apply Hsame.
Qed.

(** X2: the result of [mask_video_regions] depends only on which
    rectangles are in [video_windows], not on the order in which the set
    is iterated nor on repetitions. *)
Theorem mask_video_regions_order_independent
        (mon : rect) (img : frame) (ws ws' : list rect) :
  (forall v, v ∈ ws <-> v ∈ ws') ->
  ColorInverter.mask_video_regions mon img ws
  = ColorInverter.mask_video_regions mon img ws'.
Proof.
  intros Hsame.
  destruct ws as [|v ws], ws' as [|v' ws']; [done| | |].
  - exfalso. eapply not_elem_of_nil. apply Hsame. by left.
  - exfalso. eapply not_elem_of_nil. apply Hsame. by left.
  - rewrite !mask_video_regions_zip. f_equal.
    apply (array_ext _ _ (height img) (width img));
      [apply build_mask_shape | apply build_mask_shape |].
    intros r c Hr Hc. rewrite !at2_build_mask by done.
    by rewrite (excluded_ext mon _ _ r c Hsame).
Qed.

Lemma mask_video_regions_order_independent_witness :
  ColorInverter.mask_video_regions (0, 0, 2, 2)
    [[RGB 1 2 3; RGB 4 5 6]; [RGB 7 8 9; RGB 10 11 12]]
    [(0, 0, 1, 1); (1, 1, 2, 2)]
  = ColorInverter.mask_video_regions (0, 0, 2, 2)
      [[RGB 1 2 3; RGB 4 5 6]; [RGB 7 8 9; RGB 10 11 12]]
      [(1, 1, 2, 2); (0, 0, 1, 1); (1, 1, 2, 2)].
Proof.
  apply (mask_video_regions_order_independent (0, 0, 2, 2)
           [[RGB 1 2 3; RGB 4 5 6]; [RGB 7 8 9; RGB 10 11 12]]
           [(0, 0, 1, 1); (1, 1, 2, 2)]
           [(1, 1, 2, 2); (0, 0, 1, 1); (1, 1, 2, 2)]).
  intros v. rewrite !elem_of_cons. rewrite !elem_of_nil. tauto.
Defined.

Lemma and_pixel_two (px : pixel) (b1 b2 : bool) :
  and_pixel (and_pixel px (if b1 then 0 else 255)) (if b2 then 0 else 255)
  = and_pixel px (if b1 || b2 then 0 else 255).
Proof.
  destruct b1, b2; cbn [orb].
  - by rewrite !and_pixel_0.
  - by rewrite !and_pixel_0.
  - by rewrite !and_pixel_0.
  - apply and_pixel_idem.
Qed.

(** X3: masking composes: masking with one list of rectangles and then
    with another gives the frame masked with both lists at once. *)
Theorem mask_video_regions_app
        (mon : rect) (img : frame) (ws1 ws2 : list rect) (h w : nat) :
  has_shape h w img ->
  ColorInverter.mask_video_regions mon
    (ColorInverter.mask_video_regions mon img ws1) ws2
  = ColorInverter.mask_video_regions mon img (ws1 ++ ws2).
Proof.
  intros Hshape.
  destruct ws1 as [|v1 ws1]; [done|].
  destruct ws2 as [|v2 ws2]; [by rewrite app_nil_r|].
  set (mid := ColorInverter.mask_video_regions mon img (v1 :: ws1)).
  assert (Hmid : has_shape h w mid) by by apply mask_video_regions_shape.
  apply (array_ext _ _ h w); try by apply mask_video_regions_shape.
  intros r c Hr Hc.
  destruct (at2_is_Some img h w r c Hshape Hr Hc) as [px Hpx].
  pose proof (at2_mask_video_regions mon img v1 ws1 h w r c px Hshape Hpx)
    as H1. fold mid in H1.
  rewrite (at2_mask_video_regions mon mid v2 ws2 h w r c _ Hmid H1).
  change ((v1 :: ws1) ++ v2 :: ws2) with (v1 :: (ws1 ++ v2 :: ws2)).
  rewrite (at2_mask_video_regions mon img v1 _ h w r c px Hshape Hpx).
  rewrite and_pixel_two. do 3 f_equal.
  unfold excluded.
  change (v1 :: ws1 ++ v2 :: ws2) with ((v1 :: ws1) ++ v2 :: ws2).
  by rewrite existsb_app.
Qed.

Lemma mask_video_regions_app_witness :
  ColorInverter.mask_video_regions (0, 0, 2, 1)
    (ColorInverter.mask_video_regions (0, 0, 2, 1)
       [[RGB 1 2 3; RGB 4 5 6]] [(0, 0, 1, 1)]) [(1, 0, 2, 1)]
  = ColorInverter.mask_video_regions (0, 0, 2, 1)
      [[RGB 1 2 3; RGB 4 5 6]] ([(0, 0, 1, 1)] ++ [(1, 0, 2, 1)]).
Proof.
  apply (mask_video_regions_app (0, 0, 2, 1) [[RGB 1 2 3; RGB 4 5 6]]
           [(0, 0, 1, 1)] [(1, 0, 2, 1)] 1 2).
  split; [reflexivity | repeat constructor].
Defined.

End FrameExtras.

Section RendererFrames.
Import Frames Geometry.

Lemma and_pixel_mask_uint8 (px : pixel) (b : bool) :
  pixel_uint8 px -> pixel_uint8 (and_pixel px (if b then 0 else 255)).
Proof.
  intros Hpx. destruct b.
  - rewrite and_pixel_0. repeat split; cbn; lia.
  - by rewrite and_pixel_255.
Qed.

Lemma frame_uint8_at2 (img : frame) h w :
  has_shape h w img ->
  (forall r c px, at2 img r c = Some px -> pixel_uint8 px) ->
  frame_uint8 img.
Proof.
  intros Hshape Hall. apply Forall_lookup. intros r row Hrow.
  apply Forall_lookup. intros c px Hpx.
  apply (Hall r c). unfold at2. by rewrite Hrow.
Qed.

(** X4: the frame handed to the renderer has the shape of the captured
    frame, whatever the rectangles are (beyond the monitor, degenerate,
    overlapping), and every channel of it is a uint8 value. *)
Theorem process_frame_keeps_shape
        (mon : rect) (ws : list rect) (img : frame) (h w : nat) :
  has_shape h w img ->
  has_shape h w (ColorInverter.process_frame mon ws img)
  /\ frame_uint8 (ColorInverter.process_frame mon ws img).
Proof.
  intros Hshape.
  pose proof (invert_colors_shape h w img Hshape) as Hinv.
  assert (Hout : has_shape h w (ColorInverter.process_frame mon ws img)).
  { unfold ColorInverter.process_frame. destruct ws as [|v ws]; [done|].
    by apply mask_video_regions_shape. }
  split; [exact Hout|].
  apply (frame_uint8_at2 _ h w Hout). intros r c px Hat.
  destruct (at2_Some_lt _ _ _ _ _ _ Hout Hat) as [Hr Hc].
  destruct (at2_is_Some img h w r c Hshape Hr Hc) as [px0 Hpx0].
  assert (Hi : at2 (ColorInverter.invert_colors img) r c
               = Some (ColorInverter.invert_pixel px0))
    by (by rewrite at2_invert_colors, Hpx0).
  unfold ColorInverter.process_frame in Hat. destruct ws as [|v ws].
  - rewrite Hi in Hat. injection Hat as <-. apply invert_pixel_uint8.
  - rewrite (at2_mask_video_regions mon _ v ws h w r c _ Hinv Hi) in Hat.
    injection Hat as <-.
    apply and_pixel_mask_uint8, invert_pixel_uint8.
Qed.

Lemma process_frame_keeps_shape_witness :
  has_shape 1 2
    (ColorInverter.process_frame (0, 0, 2, 1) [(-5, -5, 1, 9); (3, 3, 1, 1)]
       [[RGB 1 2 3; RGB 4 5 6]])
  /\ frame_uint8
       (ColorInverter.process_frame (0, 0, 2, 1)
          [(-5, -5, 1, 9); (3, 3, 1, 1)] [[RGB 1 2 3; RGB 4 5 6]]).
Proof.
  apply (process_frame_keeps_shape (0, 0, 2, 1)
           [(-5, -5, 1, 9); (3, 3, 1, 1)] [[RGB 1 2 3; RGB 4 5 6]] 1 2).
  split; [reflexivity | repeat constructor].
Defined.

End RendererFrames.

(* ===================================================================== *)
(** * More on the capture loop                                            *)
(* ===================================================================== *)

Section CaptureLoopExtras.
Import Frames ColorInverter Observations Handles.

Lemma cycle_body_no_error mon e :
  List.filter is_error (fst (cycle_body mon e)) = [].
Proof.
  unfold cycle_body.
  destruct (env_inversion_active e).
  - destruct (env_grab e); [|done].
    destruct (env_video_windows e); [|done].
    destruct (env_display e); [|done].
    by destruct (env_overlay_ready e).
  - by destruct (env_overlay_ready e).
Qed.

(** X5: the capture loop prints at most one error: none unless it ends by
    the [break], and then exactly one, as its last event. *)
Theorem capture_loop_prints_one_error (mon : rect) (script : list cycle_env) :
  let r := capture_and_invert mon script in
  (exit_of r = BrokeOnError ->
   length (List.filter is_error (trace_of r)) = 1%nat
   /\ exists tr msg, trace_of r = tr ++ [ErrorPrinted msg])
  /\ (exit_of r <> BrokeOnError ->
      List.filter is_error (trace_of r) = []).
Proof.
  cbn zeta. induction script as [|e script IH]; cbn.
  - split; [discriminate | done].
  - destruct (env_running e); [|split; [discriminate | done]].
    pose proof (cycle_body_no_error mon e) as Hbody.
    destruct (cycle_body mon e) as [evs [msg|]]; cbn in Hbody.
    + unfold trace_of, exit_of. cbn. split; [|done]. intros _.
      rewrite List.filter_app, Hbody. cbn. split; [done|].
      by exists evs, msg.
    + destruct (capture_and_invert mon script) as [[tr n] ex].
      unfold trace_of, exit_of in *. cbn in *.
      rewrite List.filter_app, Hbody. cbn.
      destruct IH as [IHb IHn]. split; [|exact IHn].
      intros Hex. destruct (IHb Hex) as [Hlen (tr' & msg & ->)].
      split; [exact Hlen|].
      exists (evs ++ Slept :: tr'), msg. by rewrite <- app_assoc.
Qed.

(** X6: while the overlay is not there (no canvas yet, or the window
    destroyed by [stop]), the loop never touches the canvas. *)
Theorem capture_loop_never_draws_without_overlay
        (mon : rect) (script : list cycle_env) :
  Forall (fun e => env_overlay_ready e = false) script ->
  List.filter draws (trace_of (capture_and_invert mon script)) = [].
Proof.
  induction 1 as [|e script Hoff _ IH]; cbn; [done|].
  destruct (env_running e); [|done].
  assert (Hbody : List.filter draws (fst (cycle_body mon e)) = []).
  { unfold cycle_body. rewrite Hoff.
    destruct (env_inversion_active e); [|done].
    destruct (env_grab e); [|done].
    destruct (env_video_windows e); [|done].
    by destruct (env_display e). }
  destruct (cycle_body mon e) as [evs [msg|]]; cbn in Hbody.
  - unfold trace_of. cbn. by rewrite List.filter_app, Hbody.
  - destruct (capture_and_invert mon script) as [[tr n] ex].
    unfold trace_of in *. cbn in *.
    by rewrite List.filter_app, Hbody.
Qed.

Lemma capture_loop_never_draws_without_overlay_witness :
  List.filter draws
    (trace_of
       (capture_and_invert (0, 0, 1, 1)
          [CycleEnv true true (Ok [[RGB 1 2 3]]) (Ok []) false (Ok tt);
           CycleEnv true false (Ok [[RGB 1 2 3]]) (Ok []) false (Ok tt)]))
  = [].
Proof.
  apply (capture_loop_never_draws_without_overlay (0, 0, 1, 1)
           [CycleEnv true true (Ok [[RGB 1 2 3]]) (Ok []) false (Ok tt);
            CycleEnv true false (Ok [[RGB 1 2 3]]) (Ok []) false (Ok tt)]).
  repeat constructor.
Defined.



(** X8: once the loop reads the running flag as cleared it ends without
    any further event: after passes that completed, the trace is that of
    those passes, and what comes later is never looked at. *)
Theorem capture_loop_stops_when_flag_cleared
        (mon : rect) (pre : list cycle_env) (e : cycle_env)
        (rest : list cycle_env) :
  Forall (fun e' => env_running e' = true
                    /\ snd (cycle_body mon e') = None) pre ->
  env_running e = false ->
  capture_and_invert mon (pre ++ e :: rest)
  = (trace_of (capture_and_invert mon pre), length pre, RunningCleared).
Proof.
  intros Hpre Hstop.
  induction Hpre as [|e' pre [Hrun Hok] _ IH]; cbn.
  - by rewrite Hstop.
  - rewrite Hrun, IH.
    destruct (cycle_body mon e') as [evs o]. cbn in Hok. subst o.
    destruct (capture_and_invert mon pre) as [[tr n] ex].
    reflexivity.
Qed.

Lemma capture_loop_stops_when_flag_cleared_witness :
  capture_and_invert (0, 0, 1, 1)
    ([CycleEnv true false (Ok []) (Ok []) true (Ok tt)]
       ++ CycleEnv false true (Ok [[RGB 1 2 3]]) (Ok []) true (Ok tt)
       :: [CycleEnv true true (Ok [[RGB 1 2 3]]) (Ok []) true (Ok tt)])
  = (trace_of
       (capture_and_invert (0, 0, 1, 1)
          [CycleEnv true false (Ok []) (Ok []) true (Ok tt)]),
     length [CycleEnv true false (Ok []) (Ok []) true (Ok tt)],
     RunningCleared).
Proof.
  apply (capture_loop_stops_when_flag_cleared (0, 0, 1, 1)
           [CycleEnv true false (Ok []) (Ok []) true (Ok tt)]
           (CycleEnv false true (Ok [[RGB 1 2 3]]) (Ok []) true (Ok tt))
           [CycleEnv true true (Ok [[RGB 1 2 3]]) (Ok []) true (Ok tt)]).
  - repeat constructor.
  - reflexivity.
Defined.

End CaptureLoopExtras.

(* ===================================================================== *)
(** * More on starting, stopping and toggling                             *)
(* ===================================================================== *)

Section LifecycleExtras.
Import Handles.











Lemma py_index_out_of_range {A} (l : list A) (i : Z) :
  Z.of_nat (length l) <= i -> InverterGUI.py_index l i = None.
Proof.
  intros Hi. unfold InverterGUI.py_index.
  destruct (i <? 0) eqn:E; [lia|].
  apply lookup_ge_None_2. lia.
Qed.

Lemma py_index_in_range {A} (l : list A) (i : Z) :
  0 <= i < Z.of_nat (length l) ->
  InverterGUI.py_index l i = l !! Z.to_nat i
  /\ is_Some (l !! Z.to_nat i).
Proof.
  intros Hi. unfold InverterGUI.py_index.
  destruct (i <? 0) eqn:E; [lia|]. split; [done|].
  apply lookup_lt_is_Some_2. lia.
Qed.

(** X11: a start that cannot find its monitor does nothing: when nothing
    is selected (index below 0) or the selection is beyond the monitor
    list, [start_detection] only shows an error box; the desktop and every
    other attribute of the controller stay as they were (no overlay, no
    thread, no callback, buttons unchanged). *)
Theorem start_detection_without_monitor (d : desktop) (g : InverterGUI.t) :
  InverterGUI.combo_current g < 0
  \/ Z.of_nat (length (InverterGUI.monitors g)) <= InverterGUI.combo_current g ->
  exists msg,
    InverterGUI.start_detection d g = (d, InverterGUI.show_error msg g).
Proof.
  intros Hbad. unfold InverterGUI.start_detection.
  destruct (InverterGUI.combo_current g <? 0) eqn:E; [by eexists|].
  destruct Hbad as [Hneg|Hbig]; [lia|].
  rewrite (py_index_out_of_range _ _ Hbig). by eexists.
Qed.

Lemma start_detection_without_monitor_witness :
  exists msg,
    InverterGUI.start_detection (Desktop [] [] [] 0%nat)
      (InverterGUI.init [] 0)
    = (Desktop [] [] [] 0%nat,
       InverterGUI.show_error msg (InverterGUI.init [] 0)).
Proof.
  apply (start_detection_without_monitor (Desktop [] [] [] 0%nat)
           (InverterGUI.init [] 0)).
  right. cbn. lia.
Defined.

(** X12: a start with a valid selection builds the inverter for the
    selected monitor: it covers that monitor's rectangle, is running with
    the inversion off, its overlay window is live on the desktop, the
    detector is running, and the start button is disabled. *)
Theorem start_detection_with_monitor (d : desktop) (g : InverterGUI.t) :
  0 <= InverterGUI.combo_current g
       < Z.of_nat (length (InverterGUI.monitors g)) ->
  exists m inv w,
    InverterGUI.monitors g !! Z.to_nat (InverterGUI.combo_current g) = Some m
    /\ InverterGUI.inverter (snd (InverterGUI.start_detection d g)) = Some inv
    /\ ColorInverter.monitor_rect inv = InverterGUI.mon_rect m
    /\ ColorInverter.running inv = true
    /\ ColorInverter.inversion_active inv = false
    /\ ColorInverter.overlay_window inv = Some w
    /\ w ∈ overlays (fst (InverterGUI.start_detection d g))
    /\ WindowsKeyDetector.running
         (InverterGUI.windows_key_detector
            (snd (InverterGUI.start_detection d g))) = true
    /\ InverterGUI.start_button_enabled
         (snd (InverterGUI.start_detection d g)) = false.
Proof.
  intros Hidx. unfold InverterGUI.start_detection.
  destruct (InverterGUI.combo_current g <? 0) eqn:E; [lia|].
  destruct (py_index_in_range (InverterGUI.monitors g) _ Hidx)
    as [-> [m Hm]].
  rewrite Hm. unfold WindowsKeyDetector.start.
  destruct (WindowsKeyDetector.running _) eqn:Hrun; cbn.
  - eexists m, _, _. repeat split; try done.
    apply elem_of_app. right. by apply list_elem_of_singleton.
  - eexists m, _, _. repeat split; try done.
    apply elem_of_app. right. by apply list_elem_of_singleton.
Qed.

Lemma start_detection_with_monitor_witness :
  exists m inv w,
    [InverterGUI.Monitor (0, 0, 1, 1) "DISPLAY1" true;
     InverterGUI.Monitor (1, 0, 3, 2) "DISPLAY2" false] !! Z.to_nat 1
    = Some m
    /\ InverterGUI.inverter
         (snd (InverterGUI.start_detection (Desktop [] [] [] 0%nat)
                 (InverterGUI.init
                    [InverterGUI.Monitor (0, 0, 1, 1) "DISPLAY1" true;
                     InverterGUI.Monitor (1, 0, 3, 2) "DISPLAY2" false] 1)))
       = Some inv
    /\ ColorInverter.monitor_rect inv = InverterGUI.mon_rect m
    /\ ColorInverter.running inv = true
    /\ ColorInverter.inversion_active inv = false
    /\ ColorInverter.overlay_window inv = Some w
    /\ w ∈ overlays
           (fst (InverterGUI.start_detection (Desktop [] [] [] 0%nat)
                   (InverterGUI.init
                      [InverterGUI.Monitor (0, 0, 1, 1) "DISPLAY1" true;
                       InverterGUI.Monitor (1, 0, 3, 2) "DISPLAY2" false] 1)))
    /\ WindowsKeyDetector.running
         (InverterGUI.windows_key_detector
            (snd (InverterGUI.start_detection (Desktop [] [] [] 0%nat)
                    (InverterGUI.init
                       [InverterGUI.Monitor (0, 0, 1, 1) "DISPLAY1" true;
                        InverterGUI.Monitor (1, 0, 3, 2) "DISPLAY2" false] 1))))
       = true
    /\ InverterGUI.start_button_enabled
         (snd (InverterGUI.start_detection (Desktop [] [] [] 0%nat)
                 (InverterGUI.init
                    [InverterGUI.Monitor (0, 0, 1, 1) "DISPLAY1" true;
                     InverterGUI.Monitor (1, 0, 3, 2) "DISPLAY2" false] 1)))
       = false.
Proof.
  apply (start_detection_with_monitor (Desktop [] [] [] 0%nat)
           (InverterGUI.init
              [InverterGUI.Monitor (0, 0, 1, 1) "DISPLAY1" true;
               InverterGUI.Monitor (1, 0, 3, 2) "DISPLAY2" false] 1)).
  cbn. lia.
Defined.

End LifecycleExtras.

Section ToggleExtras.

Lemma toggle_inversion_flags (g : InverterGUI.t) (inv : ColorInverter.t) :
  InverterGUI.inverter g = Some inv ->
  InverterGUI.inversion_enabled (fst (InverterGUI.toggle_inversion g))
  = negb (InverterGUI.inversion_enabled g)
  /\ InverterGUI.inverter (fst (InverterGUI.toggle_inversion g))
     = Some (ColorInverter.set_inversion_active
               (negb (InverterGUI.inversion_enabled g)) inv).
Proof.
  intros Hinv. unfold InverterGUI.toggle_inversion. rewrite Hinv.
  destruct (negb (InverterGUI.inversion_enabled g)); [|done].
  by destruct (InverterGUI.py_index _ _).
Qed.

(** X13: [toggle_inversion] keeps the two flags in step.  Without an
    inverter it does nothing.  With one, it flips [inversion_enabled] and
    gives the inverter the same value, also when looking up the name of
    the selected monitor raises; a second toggle brings both back. *)
Theorem toggle_inversion_keeps_flags_in_step (g : InverterGUI.t) :
  (InverterGUI.inverter g = None ->
   InverterGUI.toggle_inversion g = (g, None))
  /\ (forall inv,
        InverterGUI.inverter g = Some inv ->
        let g1 := fst (InverterGUI.toggle_inversion g) in
        let g2 := fst (InverterGUI.toggle_inversion g1) in
        InverterGUI.inversion_enabled g1
        = negb (InverterGUI.inversion_enabled g)
        /\ (exists inv1,
              InverterGUI.inverter g1 = Some inv1
              /\ ColorInverter.inversion_active inv1
                 = InverterGUI.inversion_enabled g1)
        /\ InverterGUI.inversion_enabled g2 = InverterGUI.inversion_enabled g
        /\ (exists inv2,
              InverterGUI.inverter g2 = Some inv2
              /\ ColorInverter.inversion_active inv2
                 = InverterGUI.inversion_enabled g)).
Proof.
  split.
  - intros Hnone. unfold InverterGUI.toggle_inversion. by rewrite Hnone.
  - intros inv Hinv. cbn zeta.
    destruct (toggle_inversion_flags g inv Hinv) as [He1 Hi1].
    destruct (toggle_inversion_flags _ _ Hi1) as [He2 Hi2].
    rewrite He1 in He2, Hi2. rewrite negb_involutive in He2, Hi2.
    repeat split.
    + exact He1.
    + eexists. split; [exact Hi1|]. by rewrite He1.
    + exact He2.
    + eexists. split; [exact Hi2|]. done.
Qed.

(** X14: the callback is registered once more at every successful
    [start_detection], and [stop_detection] does not unregister it. *)
Theorem restart_accumulates_callbacks (d : desktop) (g : InverterGUI.t) :
  0 <= InverterGUI.combo_current g
       < Z.of_nat (length (InverterGUI.monitors g)) ->
  WindowsKeyDetector.callbacks
    (InverterGUI.windows_key_detector
       (snd (InverterGUI.start_detection d g)))
  = WindowsKeyDetector.callbacks (InverterGUI.windows_key_detector g)
      ++ [InverterGUI.toggle_inversion_method]
  /\ WindowsKeyDetector.callbacks
       (InverterGUI.windows_key_detector
          (snd (InverterGUI.stop_detection d g)))
     = WindowsKeyDetector.callbacks (InverterGUI.windows_key_detector g).
Proof.
  intros Hidx. split; [|done].
  unfold InverterGUI.start_detection.
  destruct (InverterGUI.combo_current g <? 0) eqn:E; [lia|].
  destruct (py_index_in_range (InverterGUI.monitors g) _ Hidx)
    as [-> [m Hm]].
  rewrite Hm. unfold WindowsKeyDetector.start.
  by destruct (WindowsKeyDetector.running _).
Qed.

Lemma restart_accumulates_callbacks_witness :
  WindowsKeyDetector.callbacks
    (InverterGUI.windows_key_detector
       (snd (InverterGUI.start_detection (Desktop [] [] [] 0%nat)
               (InverterGUI.init
                  [InverterGUI.Monitor (0, 0, 1, 1) "DISPLAY1" true] 0))))
  = WindowsKeyDetector.callbacks
      (InverterGUI.windows_key_detector
         (InverterGUI.init
            [InverterGUI.Monitor (0, 0, 1, 1) "DISPLAY1" true] 0))
      ++ [InverterGUI.toggle_inversion_method].
Proof.
  refine (proj1 (restart_accumulates_callbacks (Desktop [] [] [] 0%nat)
                   (InverterGUI.init
                      [InverterGUI.Monitor (0, 0, 1, 1) "DISPLAY1" true] 0)
                   _)).
  cbn. lia.
Defined.

Lemma run_events_app g tr1 tr2 :
  InverterGUI.run_events g (tr1 ++ tr2)
  = InverterGUI.run_events (InverterGUI.run_events g tr1) tr2.
Proof. unfold InverterGUI.run_events. apply fold_left_app. Qed.

Lemma run_events_one_callback (raises : InverterGUI.callback -> bool)
      (g : InverterGUI.t) (cb : InverterGUI.callback) :
  InverterGUI.run_events g
    (if raises cb
     then [WindowsKeyDetector.Called cb;
           WindowsKeyDetector.CallbackErrorPrinted cb]
     else [WindowsKeyDetector.Called cb])
  = fst (InverterGUI.toggle_inversion g).
Proof. destruct cb. by destruct (raises _). Qed.

(** X15: one trigger of the hold gesture toggles the inversion once for
    every registration of the callback: with [n] registered copies the
    inversion ends up flipped when [n] is odd and as it was when [n] is
    even (so after a stop and a second start, one hold toggles twice and
    changes nothing); the inverter's flag follows. *)
Theorem trigger_toggles_once_per_registration
        (raises : InverterGUI.callback -> bool) (g : InverterGUI.t)
        (l : list InverterGUI.callback) :
  is_Some (InverterGUI.inverter g) ->
  let g' := InverterGUI.run_events g
              (WindowsKeyDetector.run_callbacks raises l) in
  InverterGUI.inversion_enabled g'
  = xorb (InverterGUI.inversion_enabled g) (Nat.odd (length l))
  /\ (l <> [] ->
      exists inv, InverterGUI.inverter g' = Some inv
                  /\ ColorInverter.inversion_active inv
                     = InverterGUI.inversion_enabled g').
Proof.
  cbn zeta. revert g.
  induction l as [|cb l IH]; intros g [inv Hinv].
  - cbn. split; [by rewrite xorb_false_r | done].
  - unfold WindowsKeyDetector.run_callbacks. cbn [flat_map].
    fold (WindowsKeyDetector.run_callbacks raises l).
    rewrite run_events_app, run_events_one_callback.
    destruct (toggle_inversion_flags g inv Hinv) as [He Hi].
    destruct (IH (fst (InverterGUI.toggle_inversion g)))
      as [IHe IHi]; [by eexists|].
    split.
    + rewrite IHe, He. cbn [length]. rewrite Nat.odd_succ, <- Nat.negb_odd.
      by destruct (InverterGUI.inversion_enabled g), (Nat.odd (length l)).
    + intros _. destruct l as [|cb' l].
      * cbn. eexists. split; [exact Hi|]. by rewrite He.
      * by apply IHi.
Qed.

Lemma trigger_toggles_once_per_registration_witness :
  InverterGUI.inversion_enabled
    (InverterGUI.run_events
       (snd (InverterGUI.start_detection (Desktop [] [] [] 0%nat)
               (InverterGUI.init
                  [InverterGUI.Monitor (0, 0, 1, 1) "DISPLAY1" true] 0)))
       (WindowsKeyDetector.run_callbacks (fun _ => false)
          [InverterGUI.toggle_inversion_method;
           InverterGUI.toggle_inversion_method]))
  = xorb false (Nat.odd 2).
Proof.
  refine (proj1 (trigger_toggles_once_per_registration (fun _ => false)
                   (snd (InverterGUI.start_detection (Desktop [] [] [] 0%nat)
                           (InverterGUI.init
                              [InverterGUI.Monitor (0, 0, 1, 1) "DISPLAY1"
                                                   true] 0)))
                   [InverterGUI.toggle_inversion_method;
                    InverterGUI.toggle_inversion_method] _)).
  cbn. by eexists.
Defined.

End ToggleExtras.

(* ===================================================================== *)
(** * More on the key detector                                            *)
(* ===================================================================== *)

Section DetectorExtras.
Import WindowsKeyDetector.

Lemma land_bit15 (a : Z) :
  Z.land a 0x8000 = if Z.testbit a 15 then 0x8000 else 0.
Proof.
  apply Z.bits_inj'. intros m Hm. rewrite Z.land_spec.
  change 0x8000 with (2 ^ 15). rewrite Z.pow2_bits_eqb by lia.
  destruct (Z.eqb_spec 15 m) as [<-|Hne].
  - destruct (Z.testbit a 15); [|by rewrite Z.bits_0].
    by rewrite Z.pow2_bits_true.
  - rewrite andb_false_r.
    destruct (Z.testbit a 15); [|by rewrite Z.bits_0].
    rewrite Z.pow2_bits_false; [done | lia].
Qed.

(** X16: a key counts as pressed exactly when bit 15 of the value of
    [GetAsyncKeyState] is set, whatever the other bits are (the bit for
    "pressed since the last call", or the sign extension of the 16-bit
    result); the Windows key is pressed when that holds for the left or
    the right key. *)
Theorem is_key_pressed_is_bit_15 (GetAsyncKeyState : Z -> Z) (vk_code : Z) :
  is_key_pressed GetAsyncKeyState vk_code
  = Z.testbit (GetAsyncKeyState vk_code) 15
  /\ is_windows_key_pressed GetAsyncKeyState
     = Z.testbit (GetAsyncKeyState 0x5B) 15
       || Z.testbit (GetAsyncKeyState 0x5C) 15.
Proof.
  assert (H : forall vk, is_key_pressed GetAsyncKeyState vk
                         = Z.testbit (GetAsyncKeyState vk) 15).
  { intros vk. unfold is_key_pressed. rewrite land_bit15.
    by destruct (Z.testbit _ 15). }
  split; [apply H|].
  unfold is_windows_key_pressed, VK_LWIN, VK_RWIN. by rewrite !H.
Qed.

Context {Cb : Type}.

Lemma calls_of_app (tr1 tr2 : list (event Cb)) :
  calls_of (tr1 ++ tr2) = calls_of tr1 ++ calls_of tr2.
Proof. unfold calls_of. apply flat_map_app. Qed.

Lemma calls_of_run_callbacks (raises : Cb -> bool) (l : list Cb) :
  calls_of (run_callbacks raises l) = l.
Proof.
  induction l as [|cb l IH]; [done|].
  unfold run_callbacks. cbn [flat_map].
  fold (run_callbacks raises l). rewrite calls_of_app, IH.
  by destruct (raises cb).
Qed.

Lemma calls_of_sleeps (n : nat) (ms : Z) :
  calls_of (replicate n (Slept (Cb:=Cb) ms)) = [].
Proof. induction n as [|n IH]; [done|]. exact IH. Qed.

(** A poll that finds the key still down before the threshold changes
    nothing. *)
Lemma detection_loop_held_below (raises : Cb -> bool) (self : t Cb)
      (ts : list Z) (rest : list tick) :
  key_pressed self = true ->
  Forall (fun now => now - press_start_time self < hold_duration self) ts ->
  detection_loop raises self (presses ts ++ rest)
  = (fst (detection_loop raises self rest),
     replicate (length ts) (Slept 10)
       ++ snd (detection_loop raises self rest)).
Proof.
  intros Hkey Hall. induction Hall as [|now ts Hnow _ IH]; cbn.
  - by destruct (detection_loop raises self rest).
  - unfold poll_step. rewrite Hkey. cbn.
    destruct (hold_duration self <=? now - press_start_time self) eqn:E;
      [lia|].
    change (fmap _ ts) with (presses ts). rewrite IH. reflexivity.
Qed.

(** X17: while the key stays down and less than [hold_duration] has
    passed since the press (or since the last trigger), the polls call no
    callback and leave the detector as it is. *)
Theorem hold_below_threshold_is_silent (raises : Cb -> bool) (self : t Cb)
        (ts : list Z) :
  key_pressed self = true ->
  Forall (fun now => now - press_start_time self < hold_duration self) ts ->
  fst (detection_loop raises self (presses ts)) = self
  /\ calls_of (snd (detection_loop raises self (presses ts))) = []
  /\ sleeps_of (snd (detection_loop raises self (presses ts))) = length ts.
Proof.
  intros Hkey Hall.
  pose proof (detection_loop_held_below raises self ts [] Hkey Hall) as H.
  rewrite app_nil_r in H. rewrite H. cbn [fst snd detection_loop].
  rewrite app_nil_r. split; [done|]. split; [apply calls_of_sleeps|].
  unfold sleeps_of. clear. induction ts as [|x ts IH]; [done|].
  cbn. by rewrite IH.
Qed.

(** X18: a hold that reaches the threshold calls every registered
    callback exactly once, in the order of registration, also when some
    of them raise; the timer restarts at the time of the trigger. *)
Theorem hold_reaching_threshold_calls_each_callback
        (raises : Cb -> bool) (self : t Cb) (t0 : Z) (ts : list Z)
        (tf : Z) :
  key_pressed self = false ->
  Forall (fun now => now - t0 < hold_duration self) ts ->
  hold_duration self <= tf - t0 ->
  calls_of (snd (detection_loop raises self (presses (t0 :: ts ++ [tf]))))
  = callbacks self
  /\ fst (detection_loop raises self (presses (t0 :: ts ++ [tf])))
     = with_key true tf self.
Proof.
  intros Hidle Hall Hfire.
  assert (Hrun : detection_loop raises self (presses (t0 :: ts ++ [tf]))
                 = (with_key true tf self,
                    Slept 10
                      :: replicate (length ts) (Slept 10)
                      ++ run_callbacks raises (callbacks self)
                      ++ [Slept 10])).
  { unfold presses. rewrite fmap_cons, fmap_app. cbn [fmap list_fmap].
    change (fmap _ ts) with (presses ts).
    cbn [detection_loop tick_running tick_pressed tick_time].
    unfold poll_step at 1. rewrite Hidle. cbn [andb negb].
    rewrite (detection_loop_held_below raises (with_key true t0 self) ts
               [Tick true (Ok true) tf] eq_refl Hall).
    cbn [detection_loop tick_running tick_pressed tick_time fst snd].
    rewrite (poll_step_fires_and_rearms raises (with_key true t0 self) tf
               eq_refl Hfire).
    reflexivity. }
  rewrite Hrun. cbn [fst snd]. split; [|done].
  change (Slept 10 :: ?l) with ([Slept 10] ++ l).
  rewrite !calls_of_app, calls_of_sleeps, calls_of_run_callbacks.
  cbn. by rewrite app_nil_r.
Qed.

(** X19: a hold that is released before the threshold calls no callback
    and leaves the detector idle, with the timer cleared. *)
Theorem short_hold_calls_nothing
        (raises : Cb -> bool) (self : t Cb) (t0 : Z) (ts : list Z)
        (tr : Z) :
  key_pressed self = false ->
  Forall (fun now => now - t0 < hold_duration self) ts ->
  calls_of (snd (detection_loop raises self
                   (presses (t0 :: ts) ++ [release tr]))) = []
  /\ fst (detection_loop raises self (presses (t0 :: ts) ++ [release tr]))
     = with_key false 0 self.
Proof.
  intros Hidle Hall.
  assert (Hrun : detection_loop raises self
                   (presses (t0 :: ts) ++ [release tr])
                 = (with_key false 0 self,
                    Slept 10
                      :: replicate (length ts) (Slept 10) ++ [Slept 10])).
  { unfold presses. rewrite fmap_cons.
    change (fmap _ ts) with (presses ts).
    cbn [app detection_loop tick_running tick_pressed tick_time].
    unfold poll_step at 1. rewrite Hidle. cbn [andb negb].
    rewrite (detection_loop_held_below raises (with_key true t0 self) ts
               [release tr] eq_refl Hall).
    reflexivity. }
  rewrite Hrun. cbn [fst snd]. split; [|done].
  change (Slept 10 :: ?l) with ([Slept 10] ++ l).
  by rewrite !calls_of_app, calls_of_sleeps.
Qed.

Lemma sleeps_of_run_callbacks (raises : Cb -> bool) (l : list Cb)
      (tr : list (event Cb)) :
  sleeps_of (run_callbacks raises l ++ tr) = sleeps_of tr.
Proof.
  unfold sleeps_of. rewrite List.filter_app, length_app.
  induction l as [|cb l IH]; [done|].
  unfold run_callbacks in *. cbn [flat_map].
  rewrite List.filter_app, length_app.
  destruct (raises cb); cbn in *; lia.
Qed.

(** X20: the detection loop outlives every error: as long as the running
    flag is set it goes through every poll, whether the key state could
    be read or not and whether callbacks raised or not, sleeping once
    after each. *)
Theorem detection_loop_survives_errors
        (raises : Cb -> bool) (self : t Cb) (script : list tick) :
  Forall (fun k => tick_running k = true) script ->
  sleeps_of (snd (detection_loop raises self script)) = length script.
Proof.
  intros Hall. revert self.
  induction Hall as [|k script Hrun _ IH]; intros self; [done|].
  cbn [detection_loop]. rewrite Hrun.
  destruct (tick_pressed k) as [pressed|msg].
  - destruct (poll_step raises self pressed (tick_time k)) as [self1 evs] eqn:E.
    specialize (IH self1).
    destruct (detection_loop raises self1 script) as [self2 tr].
    cbn [snd length] in *.
    assert (Hevs : forall tr', sleeps_of (evs ++ tr') = sleeps_of tr').
    { intros tr'. unfold poll_step in E.
      repeat match type of E with
             | (if ?b then _ else _) = _ => destruct b
             end; injection E as <- <-; try done.
      apply sleeps_of_run_callbacks. }
    rewrite Hevs. unfold sleeps_of in *. cbn. by rewrite IH.
  - specialize (IH self).
    destruct (detection_loop raises self script) as [self2 tr].
    cbn [snd length] in *. unfold sleeps_of in *. cbn. by rewrite IH.
Qed.

End DetectorExtras.

Lemma hold_below_threshold_is_silent_witness :
  fst (WindowsKeyDetector.detection_loop (fun _ : nat => true)
         (WindowsKeyDetector.Make 2000 true 100 true None [1%nat])
         (WindowsKeyDetector.presses [110; 2099]))
  = WindowsKeyDetector.Make 2000 true 100 true None [1%nat]
  /\ WindowsKeyDetector.calls_of
       (snd (WindowsKeyDetector.detection_loop (fun _ : nat => true)
               (WindowsKeyDetector.Make 2000 true 100 true None [1%nat])
               (WindowsKeyDetector.presses [110; 2099]))) = []
  /\ WindowsKeyDetector.sleeps_of
       (snd (WindowsKeyDetector.detection_loop (fun _ : nat => true)
               (WindowsKeyDetector.Make 2000 true 100 true None [1%nat])
               (WindowsKeyDetector.presses [110; 2099])))
     = length [110; 2099].
Proof.
  apply (hold_below_threshold_is_silent (fun _ : nat => true)
           (WindowsKeyDetector.Make 2000 true 100 true None [1%nat])
           [110; 2099]).
  - reflexivity.
  - repeat (constructor; [cbn; lia|]). constructor.
Defined.

Lemma hold_reaching_threshold_calls_each_callback_witness :
  WindowsKeyDetector.calls_of
    (snd (WindowsKeyDetector.detection_loop
            (fun cb : nat => bool_decide (cb = 1%nat))
            (WindowsKeyDetector.Make 2000 false 0 true None
               [1%nat; 2%nat; 3%nat])
            (WindowsKeyDetector.presses (50 :: [60; 2049] ++ [2050]))))
  = [1%nat; 2%nat; 3%nat].
Proof.
  refine (proj1 (hold_reaching_threshold_calls_each_callback
                   (fun cb : nat => bool_decide (cb = 1%nat))
                   (WindowsKeyDetector.Make 2000 false 0 true None
                      [1%nat; 2%nat; 3%nat])
                   50 [60; 2049] 2050 _ _ _)).
  - reflexivity.
  - repeat (constructor; [cbn; lia|]). constructor.
  - cbn. lia.
Defined.

Lemma short_hold_calls_nothing_witness :
  WindowsKeyDetector.calls_of
    (snd (WindowsKeyDetector.detection_loop (fun _ : nat => false)
            (WindowsKeyDetector.Make 2000 false 0 true None [1%nat])
            (WindowsKeyDetector.presses (50 :: [60; 2049])
               ++ [WindowsKeyDetector.release 2060])))
  = [].
Proof.
  refine (proj1 (short_hold_calls_nothing (fun _ : nat => false)
                   (WindowsKeyDetector.Make 2000 false 0 true None [1%nat])
                   50 [60; 2049] 2060 _ _)).
  - reflexivity.
  - repeat (constructor; [cbn; lia|]). constructor.
Defined.

Lemma detection_loop_survives_errors_witness :
  WindowsKeyDetector.sleeps_of
    (snd (WindowsKeyDetector.detection_loop (fun _ : nat => true)
            (WindowsKeyDetector.Make 2000 true 0 true None [1%nat])
            [WindowsKeyDetector.Tick true (Raise "GetAsyncKeyState") 10;
             WindowsKeyDetector.Tick true (Ok true) 2000]))
  = length
      [WindowsKeyDetector.Tick true (Raise "GetAsyncKeyState") 10;
       WindowsKeyDetector.Tick true (Ok true) 2000].
Proof.
  apply (detection_loop_survives_errors (fun _ : nat => true)
           (WindowsKeyDetector.Make 2000 true 0 true None [1%nat])
           [WindowsKeyDetector.Tick true (Raise "GetAsyncKeyState") 10;
            WindowsKeyDetector.Tick true (Ok true) 2000]).
  repeat constructor.
Defined.

Section CallbackListExtras.
Import WindowsKeyDetector.
Context {Cb : Type} `{EqDecision Cb}.

Lemma list_remove_first (x : Cb) (l : list Cb) :
  x ∈ l ->
  exists l1 l2, l = l1 ++ x :: l2 /\ (x ∉ l1)
                /\ list_remove x l = Some (l1 ++ l2).
Proof.
  induction l as [|y l IH]; intros Hin.
  - by apply not_elem_of_nil in Hin.
  - cbn. destruct (decide (y = x)) as [->|Hne].
    + exists [], l. split; [done|]. split; [apply not_elem_of_nil | done].
    + apply elem_of_cons in Hin as [->|Hin]; [done|].
      destruct (IH Hin) as (l1 & l2 & -> & Hnot & ->).
      exists (y :: l1), l2. split; [done|]. split; [|done].
      apply not_elem_of_cons. split; [congruence | done].
Qed.

(** X21: for a registered callback, [remove_callback] takes out exactly
    one entry, the first one equal to it: the entries before it and after
    it stay, in their order, including later copies of the same
    callback; the other attributes of the detector are untouched. *)
Theorem remove_callback_removes_first (cb : Cb) (self : t Cb) :
  cb ∈ callbacks self ->
  exists l1 l2,
    callbacks self = l1 ++ cb :: l2
    /\ (cb ∉ l1)
    /\ remove_callback cb self = Ok (with_callbacks (l1 ++ l2) self).
Proof.
  intros Hin.
  destruct (list_remove_first cb (callbacks self) Hin)
    as (l1 & l2 & Heq & Hnot & Hrem).
  exists l1, l2. split; [done|]. split; [done|].
  unfold remove_callback. rewrite bool_decide_eq_true_2 by done.
  by rewrite Hrem.
Qed.

End CallbackListExtras.

Lemma remove_callback_removes_first_witness :
  exists l1 l2,
    [2%nat; 1%nat; 3%nat; 1%nat] = l1 ++ 1%nat :: l2
    /\ (1%nat ∉ l1)
    /\ WindowsKeyDetector.remove_callback 1%nat
         (WindowsKeyDetector.Make 2000 false 0 false None
            [2%nat; 1%nat; 3%nat; 1%nat])
       = Ok (WindowsKeyDetector.with_callbacks (l1 ++ l2)
               (WindowsKeyDetector.Make 2000 false 0 false None
                  [2%nat; 1%nat; 3%nat; 1%nat])).
Proof.
  apply (remove_callback_removes_first 1%nat
           (WindowsKeyDetector.Make 2000 false 0 false None
              [2%nat; 1%nat; 3%nat; 1%nat])).
  cbn. apply elem_of_cons. right. apply elem_of_cons. by left.
Defined.

(* ===================================================================== *)
(** * The video window detector                                           *)
(* ===================================================================== *)

Section VideoWindows.
Import VideoWindowDetector.

Lemma fold_enum_callback (windows : list window)
      (acc : gset (Z * Z * Z * Z)) (r : Z * Z * Z * Z) :
  r ∈ fold_left enum_callback windows acc
  <-> r ∈ acc
      \/ exists hwnd, hwnd ∈ windows /\ win_visible hwnd = true
                      /\ is_video_window hwnd = true /\ win_rect hwnd = r.
Proof.
  revert acc. induction windows as [|hwnd windows IH]; intros acc; cbn.
  - split; [by left|]. intros [?|(hwnd & Hin & _)]; [done|].
    by apply not_elem_of_nil in Hin.
  - rewrite IH. unfold enum_callback.
    destruct (win_visible hwnd) eqn:Hv, (is_video_window hwnd) eqn:Hi; cbn.
    + rewrite elem_of_union, elem_of_singleton. split.
      * intros [[->|Hacc]|(h & Hin & Hh)].
        -- right. exists hwnd. split; [by left | done].
        -- by left.
        -- right. exists h. split; [by right | done].
      * intros [Hacc|(h & Hin & Hh)]; [left; by right|].
        apply elem_of_cons in Hin as [->|Hin].
        -- left. left. by destruct Hh as (_ & _ & ->).
        -- right. by exists h.
    + split.
      * intros [Hacc|(h & Hin & Hh)]; [by left|].
        right. exists h. split; [by right | done].
      * intros [Hacc|(h & Hin & Hh)]; [by left|].
        apply elem_of_cons in Hin as [->|Hin].
        -- destruct Hh as (_ & Hi' & _). congruence.
        -- right. by exists h.
    + split.
      * intros [Hacc|(h & Hin & Hh)]; [by left|].
        right. exists h. split; [by right | done].
      * intros [Hacc|(h & Hin & Hh)]; [by left|].
        apply elem_of_cons in Hin as [->|Hin].
        -- destruct Hh as (Hv' & _). congruence.
        -- right. by exists h.
    + split.
      * intros [Hacc|(h & Hin & Hh)]; [by left|].
        right. exists h. split; [by right | done].
      * intros [Hacc|(h & Hin & Hh)]; [by left|].
        apply elem_of_cons in Hin as [->|Hin].
        -- destruct Hh as (Hv' & _). congruence.
        -- right. by exists h.
Qed.

(** X22: when the stored set is at least [update_interval] old,
    [get_video_windows] rebuilds it from scratch: the result holds
    exactly the rectangles of the windows that are visible and classified
    as video (nothing of the old set survives, hidden windows and windows
    whose class or title cannot be read are left out); it is stored, and
    the time of the update is recorded. *)
Theorem get_video_windows_refreshes
        (current_time : Z) (windows : list window) (self : t)
        (r : Z * Z * Z * Z) :
  update_interval self <= current_time - last_update self ->
  let res := get_video_windows current_time windows self in
  (r ∈ snd res
   <-> exists hwnd, hwnd ∈ windows /\ win_visible hwnd = true
                    /\ is_video_window hwnd = true /\ win_rect hwnd = r)
  /\ video_windows (fst res) = snd res
  /\ last_update (fst res) = current_time
  /\ update_interval (fst res) = update_interval self.
Proof.
  intros Hold. cbn zeta. unfold get_video_windows.
  destruct (current_time - last_update self <? update_interval self) eqn:E;
    [lia|].
  cbn [fst snd video_windows last_update update_interval].
  split; [|done].
  rewrite fold_enum_callback. split; [|by right].
  intros [Hempty|H]; [|done]. by apply not_elem_of_empty in Hempty.
Qed.

Lemma get_video_windows_refreshes_witness :
  video_windows
    (fst (get_video_windows 5000
            [Window true (Ok "Chrome_WidgetWin_1") (Ok "News") (0, 0, 9, 9)]
            init))
  = snd (get_video_windows 5000
           [Window true (Ok "Chrome_WidgetWin_1") (Ok "News") (0, 0, 9, 9)]
           init).
Proof.
  refine (proj1 (proj2 (get_video_windows_refreshes 5000
                          [Window true (Ok "Chrome_WidgetWin_1") (Ok "News")
                                  (0, 0, 9, 9)]
                          init (0, 0, 9, 9) _))).
  cbn. lia.
Defined.

(** X23: after a refresh, calls made less than [update_interval] later
    return the stored set and do not look at the windows at all: the
    answer is the one of the refresh, whatever has opened, closed or
    moved since. *)
Theorem get_video_windows_cached
        (t1 t2 : Z) (windows1 windows2 : list window) (self : t) :
  update_interval self <= t1 - last_update self ->
  t2 - t1 < update_interval self ->
  get_video_windows t2 windows2 (fst (get_video_windows t1 windows1 self))
  = get_video_windows t1 windows1 self.
Proof.
  intros Hold Hfresh. unfold get_video_windows at 2 3.
  destruct (t1 - last_update self <? update_interval self) eqn:E; [lia|].
  cbn [fst]. unfold get_video_windows.
  cbn [last_update update_interval video_windows].
  destruct (t2 - t1 <? update_interval self) eqn:E2; [done | lia].
Qed.

Lemma get_video_windows_cached_witness :
  get_video_windows 5999 []
    (fst (get_video_windows 5000
            [Window true (Ok "Chrome_WidgetWin_1") (Ok "News") (0, 0, 9, 9)]
            init))
  = get_video_windows 5000
      [Window true (Ok "Chrome_WidgetWin_1") (Ok "News") (0, 0, 9, 9)] init.
Proof.
  apply (get_video_windows_cached 5000 5999
           [Window true (Ok "Chrome_WidgetWin_1") (Ok "News") (0, 0, 9, 9)]
           [] init).
  - cbn. lia.
  - cbn. lia.
Defined.

(** Substrings. *)
Lemma prefix_spec (n h : string) :
  String.prefix n h = true <-> exists b, h = String.append n b.
Proof.
  revert h. induction n as [|c n IH]; intros h; cbn.
  - destruct h; split; try done; intros _; by eexists.
  - destruct h as [|c' h]; cbn.
    + split; [done | by intros [b Hb]].
    + destruct (Ascii.ascii_dec c c') as [->|Hne].
      * rewrite IH. split.
        -- intros [b ->]. by exists b.
        -- intros [b Hb]. exists b. by injection Hb.
      * split; [done|]. intros [b Hb]. injection Hb as Hcc _. done.
Qed.

Lemma string_app_cons (x : Ascii.ascii) (a b : string) :
  String.append (String.String x a) b = String.String x (String.append a b).
Proof. reflexivity. Qed.

Lemma string_app_assoc (a b c : string) :
  String.append (String.append a b) c = String.append a (String.append b c).
Proof.
  induction a as [|x a IH]; [reflexivity|].
  rewrite !string_app_cons. by f_equal.
Qed.

Lemma is_substring_spec (n h : string) :
  is_substring n h = true
  <-> exists a b, h = String.append a (String.append n b).
Proof.
  induction h as [|c h IH].
  - cbn [is_substring]. rewrite orb_false_r, prefix_spec. split.
    + intros [b Hb]. by exists String.EmptyString, b.
    + intros (a & b & Hab). destruct a; [by exists b | done].
  - cbn [is_substring]. rewrite orb_true_iff, prefix_spec, IH. split.
    + intros [[b Hb]|(a & b & Hab)].
      * by exists String.EmptyString, b.
      * exists (String.String c a), b. rewrite string_app_cons.
        by rewrite Hab.
    + intros (a & b & Hab). destruct a as [|c' a].
      * left. by exists b.
      * right. exists a, b. rewrite string_app_cons in Hab.
        by injection Hab.
Qed.

Lemma is_substring_trans (a b c : string) :
  is_substring a b = true -> is_substring b c = true ->
  is_substring a c = true.
Proof.
  rewrite !is_substring_spec.
  intros (p & q & ->) (p' & q' & ->).
  exists (String.append p' p), (String.append q q').
  by rewrite !string_app_assoc.
Qed.

Lemma lower_app (a b : string) :
  lower (String.append a b) = String.append (lower a) (lower b).
Proof.
  induction a as [|x a IH]; [reflexivity|].
  rewrite string_app_cons. cbn [lower]. rewrite string_app_cons.
  by f_equal.
Qed.

Lemma is_substring_lower (a b : string) :
  is_substring a b = true -> is_substring (lower a) (lower b) = true.
Proof.
  rewrite !is_substring_spec. intros (p & q & ->).
  exists (lower p), (lower q). by rewrite !lower_app.
Qed.

Lemma existsb_mono {A} (f g : A -> bool) (l : list A) :
  (forall x, f x = true -> g x = true) ->
  existsb f l = true -> existsb g l = true.
Proof.
  intros Hfg. rewrite !existsb_exists.
  intros (x & Hin & Hx). exists x. split; [done | by apply Hfg].
Qed.

(** X24: text around a match does not hide it: if a window is classified
    as video, so is every window whose class name contains its class name
    and whose title contains its title (a longer title, a prefix or a
    suffix added by the application). *)
Theorem decorated_window_stays_video
        (hwnd hwnd' : window) (c t c' t' : string) :
  win_class hwnd = Ok c -> win_text hwnd = Ok t ->
  win_class hwnd' = Ok c' -> win_text hwnd' = Ok t' ->
  is_substring c c' = true -> is_substring t t' = true ->
  is_video_window hwnd = true -> is_video_window hwnd' = true.
Proof.
  intros Hc Ht Hc' Ht' Hcc Htt. unfold is_video_window.
  rewrite Hc, Ht, Hc', Ht'.
  destruct (existsb (fun vc => is_substring vc c) COMMON_VIDEO_CLASSES)
    eqn:E1.
  - intros _.
    rewrite (existsb_mono _ (fun vc => is_substring vc c') _
               (fun vc Hvc => is_substring_trans vc c c' Hvc Hcc) E1).
    done.
  - destruct (existsb (fun ind => is_substring ind (lower t))
                      video_indicators) eqn:E2; [|done].
    intros _.
    rewrite (existsb_mono _ (fun ind => is_substring ind (lower t')) _
               (fun ind Hind =>
                  is_substring_trans ind (lower t) (lower t') Hind
                    (is_substring_lower t t' Htt)) E2).
    by destruct (existsb (fun vc => is_substring vc c') COMMON_VIDEO_CLASSES).
Qed.

Lemma decorated_window_stays_video_witness :
  is_video_window
    (Window true (Ok "MyWindow") (Ok "Cats - YouTube - Browser") (0, 0, 1, 1))
  = true.
Proof.
  apply (decorated_window_stays_video
           (Window false (Ok "Window") (Ok "YouTube") (5, 5, 6, 6))
           (Window true (Ok "MyWindow") (Ok "Cats - YouTube - Browser")
                   (0, 0, 1, 1))
           "Window" "YouTube" "MyWindow" "Cats - YouTube - Browser");
    reflexivity.
Defined.

Lemma lower_ascii_idem (c : Ascii.ascii) :
  lower_ascii (lower_ascii c) = lower_ascii c.
Proof.
  destruct c as [b0 b1 b2 b3 b4 b5 b6 b7].
  destruct b0, b1, b2, b3, b4, b5, b6, b7; reflexivity.
Qed.

Lemma lower_idem (s : string) : lower (lower s) = lower s.
Proof.
  induction s as [|c s IH]; cbn; [done|].
  by rewrite lower_ascii_idem, IH.
Qed.

(** X25: the classification ignores the letter case of the title: two
    windows that differ only in the case of the letters of their titles
    are classified alike, and a title can be replaced by its lower-case
    form.  The class name is compared as it is. *)
Theorem is_video_window_ignores_title_case
        (v v' : bool) (c : result string) (t1 t2 : string)
        (r r' : Z * Z * Z * Z) :
  lower t1 = lower t2 ->
  is_video_window (Window v c (Ok t1) r)
  = is_video_window (Window v' c (Ok t2) r')
  /\ is_video_window (Window v c (Ok (lower t1)) r)
     = is_video_window (Window v c (Ok t1) r).
Proof.
  intros Hcase. unfold is_video_window. cbn [win_class win_text].
  destruct c as [class_name|msg]; [|done].
  by rewrite Hcase, lower_idem.
Qed.

Lemma is_video_window_ignores_title_case_witness :
  is_video_window (Window true (Ok "Notepad") (Ok "NETFLIX") (0, 0, 1, 1))
  = is_video_window (Window false (Ok "Notepad") (Ok "NetFlix") (2, 2, 3, 3)).
Proof.
  refine (proj1 (is_video_window_ignores_title_case true false
                   (Ok "Notepad") "NETFLIX" "NetFlix"
                   (0, 0, 1, 1) (2, 2, 3, 3) _)).
  reflexivity.
Defined.

End VideoWindows.
